(** * Voice-agent backend: form tools, text normalisation, receive loop

    A shallow embedding of [backend/main.py].  Python strings are [string]s
    of 7-bit characters, dictionaries are [gmap]s living in an object store,
    and the coroutines are written in a small state-and-exception monad.

    Left out: the [time.time()] readings and the [logger.info] and
    [logger.debug] timing lines of the tools and the endpoint, which carry
    nothing into the form state or onto the two output channels.  The
    pipeline, the model service and the voice-activity analyser belong to
    the pipecat library and appear only as the events the code hands to
    them. *)

From Stdlib Require Import Ascii String.
From stdpp Require Import gmap strings list fin_maps.

Local Open Scope string_scope.
Local Open Scope list_scope.

(** ** Python [str] methods used by [fill_form_field] *)

Module PyStr.

(** Code point of a character.  The functions below agree with Python on
    code points 0 to 127; above that a character counts as neither space,
    word character nor upper-case letter. *)
Definition code (c : ascii) : nat := nat_of_ascii c.

(** [str.isspace] on one character, which is also the class [\s] of [re]
    for [str] patterns: TAB, LF, VT, FF, CR, FS, GS, RS, US and SPACE. *)
Definition is_space (c : ascii) : bool :=
  let n := code c in
  ((9 <=? n)%nat && (n <=? 13)%nat) || ((28 <=? n)%nat && (n <=? 32)%nat).

(** The class [\w] of [re] on 7-bit text: letters, digits, underscore. *)
Definition is_word (c : ascii) : bool :=
  let n := code c in
  ((48 <=? n)%nat && (n <=? 57)%nat) || ((65 <=? n)%nat && (n <=? 90)%nat)
  || (n =? 95)%nat || ((97 <=? n)%nat && (n <=? 122)%nat).

Definition lower_char (c : ascii) : ascii :=
  let n := code c in
  if ((65 <=? n)%nat && (n <=? 90)%nat) then ascii_of_nat (n + 32) else c.

(** [s.lower()] *)
Fixpoint lower (s : string) : string :=
  match s with
  | EmptyString => EmptyString
  | String c s' => String (lower_char c) (lower s')
  end.

Fixpoint lstrip (s : string) : string :=
  match s with
  | EmptyString => EmptyString
  | String c s' => if is_space c then lstrip s' else s
  end.

Fixpoint rstrip (s : string) : string :=
  match s with
  | EmptyString => EmptyString
  | String c s' =>
      match rstrip s' with
      | EmptyString => if is_space c then EmptyString else String c EmptyString
      | r => String c r
      end
  end.

(** [s.strip()] *)
Definition strip (s : string) : string := rstrip (lstrip s).

(** ["@" in s], and more generally membership of one character. *)
Fixpoint contains (a : ascii) (s : string) : bool :=
  match s with
  | EmptyString => false
  | String c s' => Ascii.eqb a c || contains a s'
  end.

Fixpoint count (a : ascii) (s : string) : nat :=
  match s with
  | EmptyString => 0
  | String c s' => (if Ascii.eqb a c then 1 else 0) + count a s'
  end.

(** [not s] *)
Definition is_empty (s : string) : bool :=
  match s with EmptyString => true | _ => false end.

End PyStr.

(** ** The fragment of [re] used by the two [re.sub] calls

    A backtracking matcher in the list-of-successes style: the results are
    listed in the order in which Python's engine would try them, so the head
    of the list is the match that [re] reports. *)

Module Re.
Import PyStr.

Inductive regex : Type :=
| Lit (s : string)          (* a literal run of characters *)
| SpacePlus                 (* \s+ , greedy *)
| WordB                     (* \b *)
| Seq (a b : regex)
| Alt (a b : regex)         (* a|b , left alternative first *)
| Opt (a : regex).          (* (a)? , greedy *)

(** A position in the subject: the character just before it (if any), the
    text still ahead, and how many characters the current match has taken. *)
Record cursor : Type := Cursor {
  before : option ascii;
  ahead  : string;
  taken  : nat
}.

Definition start_at (prev : option ascii) (s : string) : cursor :=
  Cursor prev s 0.

Fixpoint eat (p : string) (c : cursor) : option cursor :=
  match p with
  | EmptyString => Some c
  | String a p' =>
      match ahead c with
      | String b s' =>
          if Ascii.eqb a b then eat p' (Cursor (Some b) s' (S (taken c)))
          else None
      | EmptyString => None
      end
  end.

(** All ways for [\s+] to match, longest first. *)
Fixpoint space_runs (s : string) (n : nat) : list cursor :=
  match s with
  | String c s' =>
      if is_space c
      then space_runs s' (S n) ++ [Cursor (Some c) s' (S n)]
      else []
  | EmptyString => []
  end.

Definition word_opt (o : option ascii) : bool :=
  match o with Some c => is_word c | None => false end.

Definition next_char (s : string) : option ascii :=
  match s with String c _ => Some c | EmptyString => None end.

(** [\b]: exactly one side of the position is a word character. *)
Definition at_boundary (c : cursor) : bool :=
  xorb (word_opt (before c)) (word_opt (next_char (ahead c))).

Fixpoint rmatch (r : regex) (c : cursor) : list cursor :=
  match r with
  | Lit p => match eat p c with Some c' => [c'] | None => [] end
  | SpacePlus => space_runs (ahead c) (taken c)
  | WordB => if at_boundary c then [c] else []
  | Seq a b => flat_map (rmatch b) (rmatch a c)
  | Alt a b => rmatch a c ++ rmatch b c
  | Opt a => rmatch a c ++ [c]
  end.

(** Length of the match of [r] that starts exactly here, if there is one. *)
Definition match_here (r : regex) (prev : option ascii) (s : string)
  : option nat :=
  taken <$> head (rmatch r (start_at prev s)).

(** [re.sub(r, repl, s)]: scan left to right; at each position not inside
    a previous match try [r]; a match is replaced by [repl] and the scan
    resumes after it.  [skip] counts the characters of the current match
    that are still to be passed over.  Neither pattern of the program can
    match the empty string (see [at_rate_nonempty], [intro_nonempty]); for
    such a match the model inserts [repl] and copies the character. *)
Fixpoint sub_from (r : regex) (repl : string) (prev : option ascii)
         (s : string) (skip : nat) : string :=
  match s with
  | EmptyString =>
      match skip, match_here r prev EmptyString with
      | 0, Some _ => repl
      | _, _ => EmptyString
      end
  | String c s' =>
      match skip with
      | S k => sub_from r repl (Some c) s' k
      | 0 =>
          match match_here r prev s with
          | Some (S k) => repl +:+ sub_from r repl (Some c) s' k
          | Some 0 => repl +:+ String c (sub_from r repl (Some c) s' 0)
          | None => String c (sub_from r repl (Some c) s' 0)
          end
      end
  end.

Definition sub (r : regex) (repl : string) (s : string) : string :=
  sub_from r repl None s 0.

(** r"(\s+of)?\s+", the end of the pattern below *)
Definition of_tail_re : regex :=
  Seq (Opt (Seq SpacePlus (Lit "of"))) SpacePlus.

(** r"\s+at\s+the\s+rate(\s+of)?\s+" *)
Definition at_rate_re : regex :=
  Seq SpacePlus (Seq (Lit "at") (Seq SpacePlus (Seq (Lit "the")
    (Seq SpacePlus (Seq (Lit "rate") of_tail_re))))).

(** r"\b(my name is|name is|i am|i'm)\b" *)
Definition intro_re : regex :=
  Seq WordB
    (Seq (Alt (Lit "my name is") (Alt (Lit "name is")
            (Alt (Lit "i am") (Lit "i'm"))))
         WordB).

End Re.

(** ** Normalisation of the spoken value (lines 155-157) *)

Definition normalize (value : string) : string :=
  let text := PyStr.strip (PyStr.lower value) in
  let text := Re.sub Re.at_rate_re "@" text in
  PyStr.strip (Re.sub Re.intro_re EmptyString text).

(** ** Coroutines as state transformers that may raise *)

Inductive exn : Type :=
| WebSocketDisconnect
| ConnectionClosedError
| PyException (cls : string)        (* any other subclass of Exception *)
| PyBaseException (cls : string).   (* BaseException only, e.g. CancelledError *)

(** [isinstance(e, Exception)] *)
Definition is_Exception (e : exn) : bool :=
  match e with PyBaseException _ => false | _ => true end.

Inductive outcome (A : Type) : Type :=
| Done (a : A)
| Raised (e : exn).
Arguments Done {A} a.
Arguments Raised {A} e.

Definition M (St A : Type) : Type := St -> outcome A * St.

Definition ret {St A} (a : A) : M St A := fun s => (Done a, s).

Definition bind {St A B} (m : M St A) (k : A -> M St B) : M St B :=
  fun s => match m s with
           | (Done a, s') => k a s'
           | (Raised e, s') => (Raised e, s')
           end.

Definition raise {St A} (e : exn) : M St A := fun s => (Raised e, s).
Definition gets {St A} (f : St -> A) : M St A := fun s => (Done (f s), s).
Definition modify {St} (f : St -> St) : M St unit := fun s => (Done tt, f s).

Notation "'let*' x ':=' c 'in' k" := (bind c (fun x => k))
  (at level 10, x name, c at level 100, k at level 200).
Notation "c '>>>' k" := (bind c (fun _ => k))
  (at level 90, right associativity).

(** [try: m  except classes: h] where [catches] tells which exceptions the
    clause names. *)
Definition try_except {St A} (m : M St A) (catches : exn -> bool)
           (h : exn -> M St A) : M St A :=
  fun s => match m s with
           | (Raised e, s') => if catches e then h e s' else (Raised e, s')
           | r => r
           end.

(** [try: m  finally: f], with [f] falling off its end. *)
Definition try_finally {St A} (m : M St A) (f : M St unit) : M St A :=
  fun s => match m s with
           | (r, s') => match f s' with
                        | (Done _, s'') => (r, s'')
                        | (Raised e, s'') => (Raised e, s'')
                        end
           end.

(** [try: m  finally: return]: the [return] discards whatever was on its
    way out, a pending exception included. *)
Definition finally_return {St A} (m : M St A) (dflt : A) : M St A :=
  fun s => match m s with
           | (Done a, s') => (Done a, s')
           | (Raised _, s') => (Done dflt, s')
           end.

(** ** Objects: dictionaries live in a store and are passed by reference *)

Definition loc := nat.

Inductive pyval : Type :=
| VNone
| VStr (s : string)
| VRef (l : loc).

(** What [json.dumps] writes. *)
#[warnings="-register-all"]
Inductive json : Type :=
| JNull
| JStr (s : string)
| JObj (m : gmap string json).

(** The two output channels of a tool: the value handed to
    [params.result_callback] and the text written by [ws.send_json]. *)
Inductive event : Type :=
| Result (v : pyval)
| SendJson (j : json).

(** [FormState] (lines 80-93): [form_type] is rebound by assignment,
    [fields] always names the dictionary made by [default_factory]. *)
Record FormState : Type := mkFormState {
  form_type : option string;
  fields : loc
}.

Record Session : Type := mkSession {
  form_state : FormState;
  heap : gmap loc (gmap string pyval);
  next_loc : loc;
  trace : list event
}.

Definition set_heap (h : gmap loc (gmap string pyval)) (s : Session) : Session :=
  mkSession (form_state s) h (next_loc s) (trace s).

(** A dictionary display [{...}] makes a new object. *)
Definition new_dict (d : gmap string pyval) : M Session pyval :=
  fun s => (Done (VRef (next_loc s)),
            mkSession (form_state s) (<[next_loc s := d]> (heap s))
                      (S (next_loc s)) (trace s)).

Definition emit (e : event) : M Session unit :=
  modify (fun s => mkSession (form_state s) (heap s) (next_loc s)
                             (trace s ++ [e])).

(** The interpreter's recursion limit bounds the nesting [json.dumps]
    will follow. *)
Definition recursion_limit : nat := 1000.

Fixpoint dumps (fuel : nat) (h : gmap loc (gmap string pyval)) (v : pyval)
  : option json :=
  match v with
  | VNone => Some JNull
  | VStr s => Some (JStr s)
  | VRef l =>
      match fuel with
      | 0 => None
      | S fuel' =>
          match h !! l with
          | None => None
          | Some d =>
              if bool_decide (map_Forall (fun _ x => is_Some (dumps fuel' h x)) d)
              then Some (JObj (omap (dumps fuel' h) d))
              else None
          end
      end
  end.

(** [await params.result_callback(resp)]: the model service receives the
    object itself.  The callback is taken to return. *)
Definition result_callback (v : pyval) : M Session unit := emit (Result v).

(** [await ws.send_json(resp)]: the value is serialised at the time of the
    call; the connection is taken to be open. *)
Definition send_json (v : pyval) : M Session unit :=
  let* h := gets heap in
  match dumps recursion_limit h v with
  | Some j => emit (SendJson j)
  | None => raise (PyException "ValueError")
  end.

(** *** Methods of [FormState] *)

Module FormStateM.

(** [open]: rebinds [form_type] and empties the dictionary in place. *)
Definition open : M Session unit :=
  modify (fun s =>
    mkSession (mkFormState (Some "registration") (fields (form_state s)))
              (alter (fun _ => ∅) (fields (form_state s)) (heap s))
              (next_loc s) (trace s)).

(** [fill]: [self.fields[field] = value]. *)
Definition fill (field value : string) : M Session unit :=
  modify (fun s =>
    set_heap (alter (insert field (VStr value)) (fields (form_state s))
                    (heap s)) s).

Definition form_type_val (s : Session) : pyval :=
  match form_type (form_state s) with
  | Some t => VStr t
  | None => VNone
  end.

(** The entries of [{"form_type": self.form_type, **self.fields}]: later
    keys win, so an entry of [fields] would shadow ["form_type"]. *)
Definition dump_entries (s : Session) : gmap string pyval :=
  default ∅ (heap s !! fields (form_state s))
    ∪ {[ "form_type" := form_type_val s ]}.

(** [dump]: builds a new dictionary. *)
Definition dump : M Session pyval :=
  let* d := gets dump_entries in
  new_dict d.

End FormStateM.

(** *** The three tools (lines 142-186) *)

Definition open_form : M Session unit :=
  FormStateM.open >>>
  let* resp := new_dict {[ "status" := VStr "opened";
                           "form_type" := VStr "registration" ]} in
  result_callback resp >>>
  send_json resp.

(** Lines 159-164: the field is chosen by ["@" in text]; the candidate is the
    text in both branches. *)
Definition classify (text : string) : string :=
  if PyStr.contains "@" text then "email" else "name".

Definition fill_form_field (value : string) : M Session unit :=
  let* ft := gets (fun s => form_type (form_state s)) in
  (match ft with None => FormStateM.open | Some _ => ret tt end) >>>
  let text := normalize value in
  let field := classify text in
  let candidate := text in
  if PyStr.is_empty candidate then
    let* err := new_dict {[ "error" := VStr "no_field_detected" ]} in
    result_callback err >>>
    send_json err
  else
    FormStateM.fill field candidate >>>
    let* resp := new_dict {[ "status" := VStr "filled";
                             "field" := VStr field;
                             "value" := VStr candidate ]} in
    result_callback resp >>>
    send_json resp.

Definition submit_form : M Session unit :=
  let* data := FormStateM.dump in
  let* resp := new_dict {[ "status" := VStr "submitted"; "data" := data ]} in
  result_callback resp >>>
  send_json resp >>>
  FormStateM.open.

(** The state right after [form_state = FormState()] (line 139). *)
Definition initial_session : Session :=
  mkSession (mkFormState None 0) {[ 0 := ∅ ]} 1 [].


(** ** The receive loop of [RobustWebsocketTransport] (lines 50-76) *)

Module Transport.

(** What [msg.get(key)] may hold besides [None]. *)
Inductive payload : Type :=
| Bytes (b : list Byte.byte)
| ByteArray (b : list Byte.byte)
| Other (truthy : bool).

Record message : Type := Message {
  m_bytes : option payload;     (* msg.get("bytes") *)
  m_text : option payload       (* msg.get("text") *)
}.

Record InputAudioRawFrame : Type := Frame {
  audio : list Byte.byte;
  sample_rate : N;
  num_channels : N
}.

Inductive log_entry : Type :=
| DebugAudioReceived
| LogException (e : exn).       (* logger.exception("Unexpected error ...") *)

(** What the surroundings do during one turn of the loop: the two flags
    read by the loop test, the outcome of [self._ws.receive()], and
    whether [push_audio_frame] raises. *)
Record tick : Type := Tick {
  ws_set : bool;
  closed : bool;
  received : outcome message;
  push_raises : option exn
}.

Record T : Type := mkT {
  pushed : list InputAudioRawFrame;
  log : list log_entry
}.

(** How one turn of the loop ends. *)
Inductive flow : Type := Next | Return.

(** How far the coroutine got on the events supplied so far. *)
Inductive status : Type := Returned | Awaiting.

Definition logger (e : log_entry) : M T unit :=
  modify (fun s => mkT (pushed s) (log s ++ [e])).

Definition receive (t : tick) : M T message :=
  fun s => (received t, s).

Definition push_audio_frame (t : tick) (f : InputAudioRawFrame) : M T unit :=
  match push_raises t with
  | Some e => raise e
  | None => modify (fun s => mkT (pushed s ++ [f]) (log s))
  end.

Definition is_disconnect (e : exn) : bool :=
  match e with
  | WebSocketDisconnect | ConnectionClosedError => true
  | _ => false
  end.

(** [audio_bytes and isinstance(audio_bytes, (bytes, bytearray))] *)
Definition audio_of (p : option payload) : option (list Byte.byte) :=
  match p with
  | Some (Bytes (x :: b)) => Some (x :: b)
  | Some (ByteArray (x :: b)) => Some (x :: b)
  | _ => None
  end.

Definition is_not_None {A} (o : option A) : bool :=
  match o with Some _ => true | None => false end.

(** The body of the [while] (lines 54-71). *)
Definition iteration (t : tick) : M T flow :=
  let* got := try_except (let* m := receive t in ret (Some m))
                         is_disconnect (fun _ => ret None) in
  match got with
  | None => ret Return
  | Some msg =>
      (if is_not_None (m_bytes msg) then logger DebugAudioReceived
       else ret tt) >>>
      match audio_of (m_bytes msg) with
      | Some b =>
          push_audio_frame t (Frame b 16000%N 1%N) >>>
          ret Next
      | None =>
          if is_not_None (m_text msg) then ret Next
          else ret Next
      end
  end.

(** [while self._ws and not self._closed: ...] against the events of
    [script]; when they run out the coroutine is still waiting. *)
Fixpoint while_loop (script : list tick) : M T status :=
  match script with
  | [] => ret Awaiting
  | t :: rest =>
      if ws_set t && negb (closed t) then
        let* f := iteration t in
        match f with
        | Return => ret Returned
        | Next => while_loop rest
        end
      else ret Returned
  end.

Definition _receive_messages (script : list tick) : M T status :=
  finally_return
    (try_except (while_loop script) is_Exception
                (fun e => logger (LogException e) >>> ret Returned))
    Returned.

End Transport.

(** ** Accepting a connection, building and running the pipeline
       (lines 116-125, 127-234, 236-241) *)

Module Endpoint.

Inductive ws_event : Type :=
| Accept
| WsSendJson (j : json)
| Close (code : N)
| BuildPipeline              (* lines 127-234 entered: transport, tools, task *)
| RunPipeline.               (* PipelineRunner(...).run(task) *)

Record env : Type := Env {
  GEMINI_API_KEY : option string;       (* os.getenv("GEMINI_API_KEY") *)
  build_result : outcome unit;          (* how the constructors of 127-234 end *)
  run_result : outcome unit             (* how the pipeline run ends *)
}.

Definition Conn := list ws_event.

Definition act (e : ws_event) : M Conn unit := modify (fun l => (l ++ [e])%list).

(** [not api_key] *)
Definition missing (k : option string) : bool :=
  match k with
  | None => true
  | Some k => PyStr.is_empty k
  end.

(** The constructors of lines 127-234 stand outside the [try]: when one
    of them raises, the exception leaves the handler and [ws.close()] of
    line 241 is not reached.  Only the run of line 237 is guarded. *)
Definition websocket_endpoint (e : env) : M Conn unit :=
  act Accept >>>
  if missing (GEMINI_API_KEY e) then
    act (WsSendJson (JObj {[ "error" := JStr "GEMINI_API_KEY not set" ]})) >>>
    act (Close 4401%N) >>>
    ret tt
  else
    act BuildPipeline >>>
    (fun s => (build_result e, s)) >>>
    try_finally
      (try_except (act RunPipeline >>> (fun s => (run_result e, s)))
                  Transport.is_disconnect (fun _ => ret tt))
      (act (Close 1000%N)).

(** The server keeps one connection per client; the handler is given its
    own connection only. *)
Definition serve (id : nat) (e : env) (srv : gmap nat (list ws_event))
  : outcome unit * gmap nat (list ws_event) :=
  let '(r, c) := websocket_endpoint e (default [] (srv !! id)) in
  (r, <[id := c]> srv).

End Endpoint.

(** ** Tool calls as data, reachable sessions, and the predicates used below *)

Inductive tool : Type :=
| OpenForm
| FillFormField (value : string)
| SubmitForm.

(** What [register_direct_function] makes callable by the model. *)
Definition call (t : tool) : M Session unit :=
  match t with
  | OpenForm => open_form
  | FillFormField value => fill_form_field value
  | SubmitForm => submit_form
  end.

Inductive reachable : Session -> Prop :=
| reach_init : reachable initial_session
| reach_call s t r s' :
    reachable s -> call t s = (r, s') -> reachable s'.

(** The dictionary that [form_state.fields] names. *)
Definition fields_of (s : Session) : option (gmap string pyval) :=
  heap s !! fields (form_state s).

Definition is_atom (v : pyval) : Prop :=
  match v with VRef _ => False | _ => True end.

Definition atom_json (v : pyval) : json :=
  match v with VStr t => JStr t | _ => JNull end.

(** A dictionary without nested objects. *)
Definition flat (d : gmap string pyval) : Prop := map_Forall (fun _ v => is_atom v) d.

(** Well-formed store: the fields dictionary exists and is flat, and
    locations from [next_loc] on are unused. *)
Record wf (s : Session) : Prop := mkWf {
  wf_fields : exists d, fields_of s = Some d /\ flat d;
  wf_below : fields (form_state s) < next_loc s;
  wf_fresh : forall l, next_loc s <= l -> heap s !! l = None
}.

(** No form open means no field recorded. *)
Definition form_inv (s : Session) : Prop :=
  form_type (form_state s) = None -> fields_of s = Some ∅.

(** Predicates on text used to state what normalisation does. *)

Fixpoint all (P : ascii -> bool) (s : string) : bool :=
  match s with
  | EmptyString => true
  | String c s' => P c && all P s'
  end.



(** The character before the position reached after reading [s]. *)
Fixpoint last_of (prev : option ascii) (s : string) : option ascii :=
  match s with
  | EmptyString => prev
  | String c s' => last_of (Some c) s'
  end.




(** The content of the fields dictionary once lines 152-153 have run: it
    was [d], and is emptied when no form was open. *)
Definition after_implicit_open (s : Session) (d : gmap string pyval)
  : gmap string pyval :=
  match form_type (form_state s) with None => ∅ | Some _ => d end.

(** The only form type the program ever sets. *)
Definition form_type_ok (s : Session) : Prop :=
  forall t, form_type (form_state s) = Some t -> t = "registration".

(** Sessions used as concrete instances. *)
Definition john_session : Session :=
  snd (call (FillFormField "my name is John") initial_session).

Definition john_mail_session : Session :=
  snd (call (FillFormField "john at the rate example.com") john_session).

(** What one delivered message adds to the transport state. *)
Definition absorb (msg : Transport.message) (s : Transport.T) : Transport.T :=
  Transport.mkT
    (Transport.pushed s ++
       match Transport.audio_of (Transport.m_bytes msg) with
       | Some b => [Transport.Frame b 16000%N 1%N]
       | None => []
       end)
    (Transport.log s ++
       if Transport.is_not_None (Transport.m_bytes msg)
       then [Transport.DebugAudioReceived] else []).

(** A turn of the loop in which a message arrives and nothing raises. *)
Definition quiet (t : Transport.tick) : Prop :=
  Transport.ws_set t = true /\ Transport.closed t = false /\
  Transport.push_raises t = None /\
  exists msg, Transport.received t = Done msg.

Fixpoint absorbs (pre : list Transport.tick) (s : Transport.T) : Transport.T :=
  match pre with
  | [] => s
  | t :: pre' =>
      match Transport.received t with
      | Done msg => absorbs pre' (absorb msg s)
      | Raised _ => s
      end
  end.

Definition well_formed_frame (f : Transport.InputAudioRawFrame) : Prop :=
  Transport.sample_rate f = 16000%N /\ Transport.num_channels f = 1%N.

(** What is logged when [e] reaches the outer [try] of the receive loop. *)
Definition logged_for (e : exn) : list Transport.log_entry :=
  if is_Exception e then [Transport.LogException e] else [].

(** ** Further definitions: the serializer, runs of calls, text classes *)

(** [PCMBytesSerializer] (lines 96-111).  The frame classes are pipecat's:
    [OutputAudio] stands for [OutputAudioRawFrame] and its subclasses,
    [InputAudio] for [InputAudioRawFrame], [OtherFrame] for every frame that
    is not an instance of [OutputAudioRawFrame]. *)
Module PCMBytesSerializer.

Inductive FrameSerializerType : Type := BINARY | TEXT.

Inductive frame : Type :=
| InputAudio (f : Transport.InputAudioRawFrame)
| OutputAudio (audio : list Byte.byte) (sample_rate num_channels : N)
| OtherFrame (cls : string).

Definition type : FrameSerializerType := BINARY.

(** [serialize]: the audio of an output frame, [None] for anything else. *)
Definition serialize (f : frame) : option (list Byte.byte) :=
  match f with
  | OutputAudio a _ _ => Some a
  | _ => None
  end.

Definition deserialize (data : list Byte.byte) : frame :=
  InputAudio (Transport.Frame data 16000%N 1%N).

End PCMBytesSerializer.

(** The bytes a turn of the receive loop turns into a frame, if any. *)
Definition delivered_audio (t : Transport.tick) : option (list Byte.byte) :=
  match Transport.received t with
  | Done msg => Transport.audio_of (Transport.m_bytes msg)
  | Raised _ => None
  end.

(** Tool calls made one after the other ([run_in_parallel=False]). *)
Fixpoint run (ts : list tool) : M Session unit :=
  match ts with
  | [] => ret tt
  | t :: ts' => call t >>> run ts'
  end.

(** What one call appends to the trace, and what a run of calls appends:
    the outputs of the first call, made in [s], then those of the
    remaining calls, made in the session the first call leaves. *)
Definition call_output (t : tool) (s : Session) : list event :=
  drop (length (trace s)) (trace (snd (call t s))).

Fixpoint run_output (ts : list tool) (s : Session) : list event :=
  match ts with
  | [] => []
  | t :: ts' => call_output t s ++ run_output ts' (snd (call t s))
  end.

(** What a call leaves in the fields dictionary that held [d]. *)
Definition new_fields (t : tool) (s : Session) (d : gmap string pyval)
  : gmap string pyval :=
  match t with
  | OpenForm | SubmitForm => ∅
  | FillFormField value =>
      if PyStr.is_empty (normalize value) then after_implicit_open s d
      else <[classify (normalize value) := VStr (normalize value)]>
             (after_implicit_open s d)
  end.

(** Every entry is a non-empty normalised text filed under its own class. *)
Definition stored (d : gmap string pyval) : Prop :=
  forall k v, d !! k = Some v ->
    exists value, v = VStr (normalize value)
                  /\ normalize value <> EmptyString
                  /\ k = classify (normalize value).

Definition is_upper (c : ascii) : bool :=
  let n := PyStr.code c in (65 <=? n)%nat && (n <=? 90)%nat.

Definition no_upper (c : ascii) : bool := negb (is_upper c).

(** [a] occurs in no literal of [r] and is not white space, so no match of
    [r] covers an [a]. *)
Fixpoint avoids (a : ascii) (r : Re.regex) : bool :=
  match r with
  | Re.Lit p => negb (PyStr.contains a p)
  | Re.SpacePlus => negb (PyStr.is_space a)
  | Re.WordB => true
  | Re.Seq x y | Re.Alt x y => avoids a x && avoids a y
  | Re.Opt x => avoids a x
  end.

Fixpoint last_char (s : string) : option ascii :=
  match s with
  | EmptyString => None
  | String c EmptyString => Some c
  | String _ s' => last_char s'
  end.

(** How many [Close] events a connection log holds. *)
Fixpoint closes (l : list Endpoint.ws_event) : nat :=
  match l with
  | [] => 0
  | Endpoint.Close _ :: l' => S (closes l')
  | _ :: l' => closes l'
  end.


(** * Proofs *)

(** ** Serialisation *)

Lemma recursion_limit_pos : exists n, recursion_limit = S (S n).
Proof. eexists. reflexivity. Qed.

Lemma dumps_atom fuel h v : is_atom v -> dumps fuel h v = Some (atom_json v).
Proof. destruct v; simpl; intros Hv; try done; destruct fuel; done. Qed.

Lemma dumps_flat fuel h l d :
  h !! l = Some d -> flat d ->
  dumps (S fuel) h (VRef l) = Some (JObj (atom_json <$> d)).
Proof.
  intros Hl Hd. cbn [dumps]. rewrite Hl.
  rewrite bool_decide_eq_true_2.
  - do 2 f_equal. apply map_eq. intros k.
    rewrite lookup_omap, lookup_fmap.
    destruct (d !! k) as [v|] eqn:Hk; [|done]. cbn.
    apply dumps_atom. by apply (Hd k).
  - intros k v Hk. rewrite dumps_atom; [done|]. by apply (Hd k).
Qed.

Lemma flat_insert k v d : is_atom v -> flat d -> flat (<[k := v]> d).
Proof. intros Hv Hd. by apply map_Forall_insert_2. Qed.

Lemma flat_empty : flat ∅.
Proof. apply map_Forall_empty. Qed.

Lemma flat_union d1 d2 : flat d1 -> flat d2 -> flat (d1 ∪ d2).
Proof. intros H1 H2. by apply map_Forall_union_2. Qed.

Lemma flat_singleton k v : is_atom v -> flat {[ k := v ]}.
Proof. intros Hv. by apply map_Forall_singleton. Qed.

Lemma is_atom_VStr t : is_atom (VStr t).
Proof. exact I. Qed.

#[local] Hint Resolve flat_insert flat_empty flat_union flat_singleton
  is_atom_VStr : core.

Lemma dumps_submitted fuel h lr ld snap :
  h !! lr = Some {[ "status" := VStr "submitted"; "data" := VRef ld ]} ->
  h !! ld = Some snap -> flat snap ->
  dumps (S (S fuel)) h (VRef lr)
  = Some (JObj {[ "status" := JStr "submitted";
                  "data" := JObj (atom_json <$> snap) ]}).
Proof.
  intros Hr Hd Hsnap. cbn [dumps]. rewrite Hr.
  assert (Hin : dumps (S fuel) h (VRef ld) = Some (JObj (atom_json <$> snap)))
    by by apply dumps_flat.
  rewrite bool_decide_eq_true_2.
  - do 2 f_equal. apply map_eq. intros k. rewrite lookup_omap.
    destruct (decide (k = "status")) as [->|Hs].
    { by rewrite !lookup_insert_eq. }
    rewrite !(lookup_insert_ne _ "status") by done.
    destruct (decide (k = "data")) as [->|Hk].
    { rewrite !lookup_singleton_eq. cbn. exact Hin. }
    by rewrite !lookup_singleton_ne.
  - apply map_Forall_insert_2; [done|].
    apply map_Forall_singleton.
    change (is_Some (dumps (S fuel) h (VRef ld))). by rewrite Hin.
Qed.

(** ** The handlers, step by step *)

Lemma send_json_flat st l d :
  heap st !! l = Some d -> flat d ->
  send_json (VRef l) st
  = (Done tt, mkSession (form_state st) (heap st) (next_loc st)
                        (trace st ++ [SendJson (JObj (atom_json <$> d))])).
Proof.
  intros Hl Hd. unfold send_json, bind, gets, emit, modify.
  destruct recursion_limit_pos as [k ->].
  by rewrite (dumps_flat _ _ _ _ Hl Hd).
Qed.

Lemma send_json_submitted st lr ld snap :
  heap st !! lr = Some {[ "status" := VStr "submitted"; "data" := VRef ld ]} ->
  heap st !! ld = Some snap -> flat snap ->
  send_json (VRef lr) st
  = (Done tt, mkSession (form_state st) (heap st) (next_loc st)
       (trace st ++ [SendJson (JObj {[ "status" := JStr "submitted";
                                       "data" := JObj (atom_json <$> snap) ]})])).
Proof.
  intros Hr Hl Hd. unfold send_json, bind, gets, emit, modify.
  destruct recursion_limit_pos as [k ->].
  by rewrite (dumps_submitted _ _ _ _ _ Hr Hl Hd).
Qed.

Lemma alter_present {A} (g : A -> A) (h : gmap loc A) l x :
  h !! l = Some x -> alter g l h = <[l := g x]> h.
Proof.
  intros Hl. apply map_eq. intros i. destruct (decide (i = l)) as [->|Hne].
  - by rewrite lookup_alter_eq, lookup_insert_eq, Hl.
  - by rewrite lookup_alter_ne, lookup_insert_ne.
Qed.

Ltac run_monad :=
  unfold FormStateM.dump, FormStateM.open, FormStateM.fill, new_dict,
    result_callback, emit, bind, modify, gets, ret, set_heap;
  cbn [heap next_loc trace form_state fields form_type fst snd].

Section Handlers.
Variable s : Session.
Hypothesis Hwf : wf s.

Let f := fields (form_state s).
Let n := next_loc s.

Lemma open_form_run :
  open_form s =
  (Done tt,
   mkSession (mkFormState (Some "registration") f)
     (<[n := {[ "status" := VStr "opened";
                "form_type" := VStr "registration" ]}]>
        (<[f := ∅]> (heap s)))
     (S n)
     (trace s ++
        [Result (VRef n);
         SendJson (JObj {[ "status" := JStr "opened";
                           "form_type" := JStr "registration" ]})])).
Proof.
  destruct Hwf as [(d & Hd & Hflat) Hlt Hfresh].
  unfold open_form. run_monad.
  erewrite send_json_flat; cbn [heap next_loc trace form_state];
    [| apply lookup_insert_eq | auto ].
  rewrite (alter_present _ _ _ _ Hd), <- app_assoc.
  by rewrite fmap_insert, map_fmap_singleton.
Qed.

Lemma fill_form_field_error_run value d :
  fields_of s = Some d ->
  normalize value = EmptyString ->
  fill_form_field value s =
  (Done tt,
   mkSession
     (mkFormState (Some (default "registration" (form_type (form_state s)))) f)
     (<[n := {[ "error" := VStr "no_field_detected" ]}]>
        (<[f := after_implicit_open s d]> (heap s)))
     (S n)
     (trace s ++
        [Result (VRef n);
         SendJson (JObj {[ "error" := JStr "no_field_detected" ]})])).
Proof.
  intros Hd Hempty. destruct Hwf as [(d' & Hd' & Hflat) Hlt Hfresh].
  unfold fill_form_field, after_implicit_open. rewrite Hempty.
  cbn [PyStr.is_empty]. run_monad.
  destruct (form_type (form_state s)) as [t|] eqn:Hft; run_monad.
  - erewrite send_json_flat; cbn [heap next_loc trace form_state];
      [| apply lookup_insert_eq | auto ].
    rewrite <- app_assoc, map_fmap_singleton. cbn [default].
    rewrite (insert_id (heap s) f d) by exact Hd.
    subst f n. destruct s as [[ft fl] h nl tr].
    cbn [heap next_loc trace form_state fields form_type] in *. by subst ft.
  - erewrite send_json_flat; cbn [heap next_loc trace form_state];
      [| apply lookup_insert_eq | auto ].
    rewrite <- app_assoc, map_fmap_singleton.
    by rewrite (alter_present _ _ _ _ Hd).
Qed.

Lemma fill_form_field_ok_run value d :
  fields_of s = Some d ->
  normalize value <> EmptyString ->
  fill_form_field value s =
  (Done tt,
   mkSession
     (mkFormState (Some (default "registration" (form_type (form_state s)))) f)
     (<[n := {[ "status" := VStr "filled";
                "field" := VStr (classify (normalize value));
                "value" := VStr (normalize value) ]}]>
        (<[f := <[classify (normalize value) := VStr (normalize value)]>
                  (after_implicit_open s d)]> (heap s)))
     (S n)
     (trace s ++
        [Result (VRef n);
         SendJson (JObj {[ "status" := JStr "filled";
                           "field" := JStr (classify (normalize value));
                           "value" := JStr (normalize value) ]})])).
Proof.
  intros Hd Hne. destruct Hwf as [(d' & Hd' & Hflat) Hlt Hfresh].
  unfold fill_form_field, after_implicit_open.
  destruct (normalize value) as [|c t] eqn:Hnorm; [done|].
  cbn [PyStr.is_empty]. run_monad.
  destruct (form_type (form_state s)) as [t0|] eqn:Hft; run_monad.
  - erewrite send_json_flat; cbn [heap next_loc trace form_state];
      [| apply lookup_insert_eq | auto 6 ].
    rewrite <- app_assoc, !fmap_insert, map_fmap_singleton. cbn [default].
    rewrite (alter_present _ _ _ _ Hd).
    subst f n. destruct s as [[ft fl] h nl tr].
    cbn [heap next_loc trace form_state fields form_type] in *. by subst ft.
  - erewrite send_json_flat; cbn [heap next_loc trace form_state];
      [| apply lookup_insert_eq | auto 6 ].
    rewrite <- app_assoc, !fmap_insert, map_fmap_singleton.
    rewrite (alter_present _ _ _ _ Hd).
    rewrite (alter_present _ _ _ ∅) by apply lookup_insert_eq.
    by rewrite insert_insert_eq.
Qed.

Lemma submit_form_run d :
  fields_of s = Some d ->
  submit_form s =
  (Done tt,
   mkSession (mkFormState (Some "registration") f)
     (<[f := ∅]>
        (<[S n := {[ "status" := VStr "submitted"; "data" := VRef n ]}]>
           (<[n := FormStateM.dump_entries s]> (heap s))))
     (S (S n))
     (trace s ++
        [Result (VRef (S n));
         SendJson (JObj {[ "status" := JStr "submitted";
                           "data" := JObj (atom_json <$> FormStateM.dump_entries s) ]})])).
Proof.
  intros Hd. destruct Hwf as [(d' & Hd' & Hflat) Hlt Hfresh].
  assert (d' = d) as -> by congruence.
  unfold submit_form. run_monad.
  erewrite send_json_submitted; cbn [heap next_loc trace form_state fields];
    [| apply lookup_insert_eq
     | rewrite lookup_insert_ne by lia; apply lookup_insert_eq
     | ].
  - rewrite <- app_assoc. cbn [app].
    erewrite alter_present; [done|].
    rewrite !lookup_insert_ne by (subst f n; lia). exact Hd.
  - unfold FormStateM.dump_entries. fold (fields_of s). rewrite Hd.
    cbn [default]. apply flat_union; [done|]. apply map_Forall_singleton.
    unfold FormStateM.form_type_val. by destruct (form_type _).
Qed.

End Handlers.

Lemma wf_initial : wf initial_session.
Proof.
  split.
  - exists ∅. split; [reflexivity | apply flat_empty].
  - cbn. lia.
  - intros l Hl. cbn in Hl. cbn [initial_session heap].
    apply lookup_singleton_ne. lia.
Qed.

Lemma form_inv_initial : form_inv initial_session.
Proof. intros _. reflexivity. Qed.

(** Every tool call returns, keeps the store well formed and leaves a form
    open. *)
Lemma call_returns s t :
  wf s ->
  exists s', call t s = (Done tt, s') /\ wf s'
             /\ fields (form_state s') = fields (form_state s)
             /\ form_type (form_state s')
                = Some (match t with
                        | FillFormField _ =>
                            default "registration" (form_type (form_state s))
                        | _ => "registration"
                        end).
Proof.
  intros Hwf. pose proof Hwf as [(d & Hd & Hflat) Hlt Hfresh].
  destruct t as [|value|]; cbn [call].
  - rewrite (open_form_run s Hwf). eexists. split; [reflexivity|].
    split; [|done]. split; unfold fields_of; cbn [heap next_loc form_state fields].
    + exists ∅. split; [|done].
      rewrite lookup_insert_ne by lia. apply lookup_insert_eq.
    + lia.
    + intros l Hl. rewrite !lookup_insert_ne by lia. apply Hfresh. lia.
  - destruct (decide (normalize value = EmptyString)) as [He|Hne].
    + rewrite (fill_form_field_error_run s Hwf value d Hd He).
      eexists. split; [reflexivity|]. split; [|done].
      split; unfold fields_of; cbn [heap next_loc form_state fields].
      * eexists. split.
        { rewrite lookup_insert_ne by lia. apply lookup_insert_eq. }
        unfold after_implicit_open. destruct (form_type _); done.
      * lia.
      * intros l Hl. rewrite !lookup_insert_ne by lia. apply Hfresh. lia.
    + rewrite (fill_form_field_ok_run s Hwf value d Hd Hne).
      eexists. split; [reflexivity|]. split; [|done].
      split; unfold fields_of; cbn [heap next_loc form_state fields].
      * eexists. split.
        { rewrite lookup_insert_ne by lia. apply lookup_insert_eq. }
        apply flat_insert; [done|].
        unfold after_implicit_open. destruct (form_type _); done.
      * lia.
      * intros l Hl. rewrite !lookup_insert_ne by lia. apply Hfresh. lia.
  - rewrite (submit_form_run s Hwf d Hd). eexists. split; [reflexivity|].
    split; [|done]. split; unfold fields_of; cbn [heap next_loc form_state fields].
    + exists ∅. split; [|done]. apply lookup_insert_eq.
    + lia.
    + intros l Hl. rewrite !lookup_insert_ne by lia. apply Hfresh. lia.
Qed.

Lemma reachable_wf s : reachable s -> wf s.
Proof.
  induction 1 as [|s t r s' _ IH Hcall]; [apply wf_initial|].
  destruct (call_returns s t IH) as (s1 & Hrun & Hwf1 & _).
  congruence.
Qed.

Lemma dump_entries_open s :
  fields_of s = Some ∅ ->
  FormStateM.dump_entries s = {[ "form_type" := FormStateM.form_type_val s ]}.
Proof.
  intros He. unfold FormStateM.dump_entries. fold (fields_of s).
  rewrite He. unfold default, from_option, id. apply (left_id ∅ (∪)).
Qed.

Lemma reachable_call s t : reachable s -> reachable (snd (call t s)).
Proof. intros Hs. eapply reach_call; [exact Hs | apply surjective_pairing]. Qed.

Lemma reachable_john : reachable john_session.
Proof. exact (reachable_call initial_session _ reach_init). Qed.

Lemma reachable_john_mail : reachable john_mail_session.
Proof. exact (reachable_call john_session _ reachable_john). Qed.

(** ** The tools *)

(** C6: from every well-formed session [open_form] returns; afterwards
    [form_type] is ["registration"] and the fields dictionary is empty, the
    object [{"status": "opened", "form_type": "registration"}] has gone to
    the result callback and its JSON text to the client, and a [dump()]
    made right then holds the single entry [form_type = "registration"]. *)
Theorem open_form_always_opens (s : Session) :
  wf s ->
  exists s',
    open_form s = (Done tt, s') /\
    form_type (form_state s') = Some "registration" /\
    fields_of s' = Some ∅ /\
    trace s' = trace s ++
      [Result (VRef (next_loc s));
       SendJson (JObj {[ "status" := JStr "opened";
                         "form_type" := JStr "registration" ]})] /\
    heap s' !! next_loc s
      = Some {[ "status" := VStr "opened";
                "form_type" := VStr "registration" ]} /\
    exists s'',
      FormStateM.dump s' = (Done (VRef (next_loc s')), s'') /\
      heap s'' !! next_loc s' = Some {[ "form_type" := VStr "registration" ]}.
Proof.
  intros Hwf. pose proof Hwf as [_ Hlt _].
  eexists. split; [apply (open_form_run s Hwf)|].
  unfold fields_of. cbn [heap next_loc trace form_state fields form_type].
  assert (Hf : <[next_loc s := {[ "status" := VStr "opened";
                                  "form_type" := VStr "registration" ]}]>
                 (<[fields (form_state s) := ∅]> (heap s))
               !! fields (form_state s) = Some (∅ : gmap string pyval)).
  { rewrite lookup_insert_ne by lia. apply lookup_insert_eq. }
  split; [reflexivity|]. split; [exact Hf|]. split; [reflexivity|].
  split; [apply lookup_insert_eq|].
  eexists. split; [reflexivity|]. cbn [heap next_loc].
  rewrite lookup_insert_eq. f_equal.
  etrans; [apply dump_entries_open; exact Hf | reflexivity].
Qed.

Lemma open_form_always_opens_witness :
  wf john_session /\
  exists s', open_form john_session = (Done tt, s') /\
             form_type (form_state s') = Some "registration" /\
             fields_of s' = Some ∅.
Proof.
  split; [apply reachable_wf, reachable_john|].
  destruct (open_form_always_opens john_session
              (reachable_wf _ reachable_john)) as (s' & H1 & H2 & H3 & _).
  exists s'. auto.
Defined.



(** C2, as stated, fails: on a fresh session the blank input takes the
    error path and yet [form_type] has changed from [None] to
    ["registration"], because the implicit [open] of lines 152-153 runs
    before the value is looked at. *)
Lemma fill_blank_sets_form_type :
  normalize "   " = EmptyString /\
  form_state initial_session = mkFormState None 0 /\
  form_state (snd (fill_form_field "   " initial_session))
    = mkFormState (Some "registration") 0.
Proof. vm_compute. repeat split. Qed.

(** C2, amended: when the normalised candidate is empty, [fill_form_field]
    returns after handing [{"error": "no_field_detected"}] to the result
    callback and to the client, and writes no field.  With a form already
    open the form state is untouched; with none open the implicit [open]
    has set [form_type] to ["registration"].  In every session that
    satisfies [form_inv] the fields dictionary is the same before and
    after. *)
Theorem fill_form_field_no_field_detected (value : string) (s : Session) :
  wf s ->
  normalize value = EmptyString ->
  exists s',
    fill_form_field value s = (Done tt, s') /\
    trace s' = trace s ++
      [Result (VRef (next_loc s));
       SendJson (JObj {[ "error" := JStr "no_field_detected" ]})] /\
    heap s' !! next_loc s = Some {[ "error" := VStr "no_field_detected" ]} /\
    fields (form_state s') = fields (form_state s) /\
    form_type (form_state s')
      = Some (default "registration" (form_type (form_state s))) /\
    (form_type (form_state s) <> None ->
       form_state s' = form_state s /\ fields_of s' = fields_of s) /\
    (form_inv s -> fields_of s' = fields_of s).
Proof.
  intros Hwf Hempty. pose proof Hwf as [(d & Hd & _) Hlt _].
  eexists. split; [apply (fill_form_field_error_run s Hwf value d Hd Hempty)|].
  unfold fields_of in *.
  cbn [heap next_loc trace form_state fields form_type].
  assert (Hf : <[next_loc s := {[ "error" := VStr "no_field_detected" ]}]>
                 (<[fields (form_state s) := after_implicit_open s d]> (heap s))
               !! fields (form_state s) = Some (after_implicit_open s d)).
  { rewrite lookup_insert_ne by lia. apply lookup_insert_eq. }
  split; [reflexivity|]. split; [apply lookup_insert_eq|].
  split; [reflexivity|]. split; [reflexivity|]. split.
  - intros Hopen. rewrite Hf, Hd. unfold after_implicit_open.
    destruct s as [[[t|] fl] h nl tr]; cbn [form_type form_state] in *; done.
  - intros Hinv. rewrite Hf, Hd. unfold after_implicit_open.
    destruct (form_type (form_state s)) eqn:Hft; [done|].
    specialize (Hinv Hft). unfold fields_of in Hinv. congruence.
Qed.

Lemma fill_form_field_no_field_detected_witness :
  wf john_session /\ normalize "  My name is " = EmptyString /\
  exists s', fill_form_field "  My name is " john_session = (Done tt, s') /\
             form_state s' = form_state john_session /\
             fields_of s' = fields_of john_session.
Proof.
  split; [apply reachable_wf, reachable_john|]. split; [reflexivity|].
  destruct (fill_form_field_no_field_detected "  My name is " john_session
              (reachable_wf _ reachable_john) eq_refl)
    as (s' & H1 & _ & _ & _ & _ & H6 & _).
  exists s'. split; [exact H1|]. apply H6. vm_compute. discriminate.
Defined.

(** C7: every tool call, on each of its paths, returns after exactly two
    outputs in this order: an object passed to the result callback, then a
    JSON text sent to the client, and that text is the serialisation of
    that very object. *)
Theorem every_tool_call_has_both_outputs (t : tool) (s : Session) :
  wf s ->
  exists s' r j,
    call t s = (Done tt, s') /\
    trace s' = trace s ++ [Result r; SendJson j] /\
    dumps recursion_limit (heap s') r = Some j.
Proof.
  intros Hwf. pose proof Hwf as [(d & Hd & Hflat) Hlt Hfresh].
  destruct recursion_limit_pos as [k Hk]. rewrite Hk.
  destruct t as [|value|]; cbn [call].
  - eexists _, _, _. split; [apply (open_form_run s Hwf)|].
    cbn [heap trace]. split; [reflexivity|].
    erewrite dumps_flat; [| apply lookup_insert_eq | auto].
    by rewrite fmap_insert, map_fmap_singleton.
  - destruct (decide (normalize value = EmptyString)) as [He|Hne].
    + eexists _, _, _.
      split; [apply (fill_form_field_error_run s Hwf value d Hd He)|].
      cbn [heap trace]. split; [reflexivity|].
      erewrite dumps_flat; [| apply lookup_insert_eq | auto].
      by rewrite map_fmap_singleton.
    + eexists _, _, _.
      split; [apply (fill_form_field_ok_run s Hwf value d Hd Hne)|].
      cbn [heap trace]. split; [reflexivity|].
      erewrite dumps_flat; [| apply lookup_insert_eq | auto 6].
      by rewrite !fmap_insert, map_fmap_singleton.
  - eexists _, _, _. split; [apply (submit_form_run s Hwf d Hd)|].
    cbn [heap trace]. split; [reflexivity|].
    eapply dumps_submitted.
    + rewrite lookup_insert_ne by lia. apply lookup_insert_eq.
    + rewrite !lookup_insert_ne by lia. apply lookup_insert_eq.
    + unfold FormStateM.dump_entries. fold (fields_of s). rewrite Hd.
      cbn [default]. apply flat_union; [done|]. apply map_Forall_singleton.
      unfold FormStateM.form_type_val. by destruct (form_type _).
Qed.

Lemma every_tool_call_has_both_outputs_witness :
  wf initial_session /\
  exists s' r j,
    call (FillFormField "   ") initial_session = (Done tt, s') /\
    trace s' = [Result r; SendJson j].
Proof.
  split; [apply wf_initial|].
  destruct (every_tool_call_has_both_outputs (FillFormField "   ")
              initial_session wf_initial) as (s' & r & j & H1 & H2 & _).
  exists s', r, j. split; [exact H1 | exact H2].
Defined.

(** ** The form invariant *)

Lemma call_establishes_inv s t :
  wf s -> form_type_ok s ->
  exists s', call t s = (Done tt, s') /\ wf s' /\ form_inv s' /\
             form_type (form_state s') = Some "registration".
Proof.
  intros Hwf Hok.
  destruct (call_returns s t Hwf) as (s' & Hrun & Hwf' & _ & Hft).
  exists s'. split; [exact Hrun|]. split; [exact Hwf'|].
  assert (Hreg : form_type (form_state s') = Some "registration").
  { rewrite Hft. destruct t as [|value|]; try reflexivity.
    destruct (form_type (form_state s)) as [t0|] eqn:E; [|reflexivity].
    cbn [default from_option id]. f_equal. by apply Hok. }
  split; [|exact Hreg]. intros Hnone. congruence.
Qed.

(** C10: in every session reachable from the initial one by tool calls,
    [form_type = None] implies that the fields dictionary is empty;
    equivalently a non-empty fields dictionary implies
    [form_type = "registration"]; and each of the three handlers returns
    into a session where this holds again. *)
Theorem form_invariant_reachable (s : Session) :
  reachable s ->
  form_inv s /\
  (forall d, fields_of s = Some d -> d <> ∅ ->
             form_type (form_state s) = Some "registration") /\
  (forall t, exists s', call t s = (Done tt, s') /\ form_inv s').
Proof.
  intros Hreach.
  assert (Hall : wf s /\ form_inv s /\ form_type_ok s).
  { induction Hreach as [|s t r s' _ IH Hcall].
    - split; [apply wf_initial|]. split; [apply form_inv_initial|].
      intros t Ht. discriminate Ht.
    - destruct IH as (Hwf & _ & Hok).
      destruct (call_establishes_inv s t Hwf Hok)
        as (s1 & Hrun & Hwf1 & Hinv1 & Hreg).
      assert (s1 = s') as -> by congruence.
      split; [exact Hwf1|]. split; [exact Hinv1|].
      intros t0 Ht0. congruence. }
  destruct Hall as (Hwf & Hinv & Hok).
  split; [exact Hinv|]. split.
  - intros d Hd Hne.
    destruct (form_type (form_state s)) as [t|] eqn:Hft.
    + f_equal. by apply Hok.
    + specialize (Hinv Hft). congruence.
  - intros t. destruct (call_establishes_inv s t Hwf Hok)
      as (s' & Hrun & _ & Hinv' & _).
    by exists s'.
Qed.

Lemma form_invariant_reachable_witness :
  reachable john_mail_session /\ form_inv john_mail_session.
Proof.
  split; [apply reachable_john_mail|].
  apply (form_invariant_reachable john_mail_session reachable_john_mail).
Defined.

(** ** Text: white space and trimming *)

Section Text.
Import PyStr Re.


Lemma all_app P a b : all P (a +:+ b) = all P a && all P b.
Proof.
  induction a as [|c a IH]; [reflexivity|].
  simpl. rewrite IH. apply andb_assoc.
Qed.








Lemma contains_app a x y :
  contains a (x +:+ y) = contains a x || contains a y.
Proof.
  induction x as [|c x IH]; [reflexivity|].
  simpl. rewrite IH. apply orb_assoc.
Qed.

Lemma count_app a x y : count a (x +:+ y) = count a x + count a y.
Proof.
  induction x as [|c x IH]; [reflexivity|].
  simpl. rewrite IH. lia.
Qed.

Lemma contains_count a x : contains a x = false <-> count a x = 0.
Proof.
  induction x as [|c x IH]; [done|]. cbn [contains count].
  rewrite orb_false_iff, IH.
  destruct (Ascii.eqb a c); split; intros; try lia; try tauto.
Qed.

End Text.

(** ** The matcher on the two patterns *)

Section Regex.
Import PyStr Re.

Lemma eat_ahead p c c' : eat p c = Some c' -> ahead c = p +:+ ahead c'.
Proof.
  revert c. induction p as [|a p IH]; intros [b s n] H; simpl in *.
  - by injection H as <-.
  - destruct s as [|x s]; [done|].
    destruct (Ascii.eqb a x) eqn:E; [|done].
    apply Ascii.eqb_eq in E as ->. apply IH in H. simpl in H. by rewrite H.
Qed.







(** *** Stepping [re.sub] *)


Lemma sub_from_skip r repl prev p s :
  sub_from r repl prev (p +:+ s) (String.length p)
  = sub_from r repl (last_of prev p) s 0.
Proof.
  revert prev. induction p as [|c p IH]; intros prev.
  - by destruct s.
  - simpl. apply IH.
Qed.



Lemma match_here_at_rate_end prev : match_here at_rate_re prev EmptyString = None.
Proof. reflexivity. Qed.







End Regex.

(** ** What normalisation does to a phrase *)

Section Normalize.
Import PyStr Re.









End Normalize.

(** ** Filling a field *)

(** A non-empty candidate is stored under the key chosen by [classify], and
    the same field and value go out on both channels. *)
Lemma fill_form_field_records value s :
  wf s -> normalize value <> EmptyString ->
  exists s' d0,
    let text := normalize value in
    fill_form_field value s = (Done tt, s') /\
    fields_of s = Some d0 /\
    fields_of s'
      = Some (<[classify text := VStr text]> (after_implicit_open s d0)) /\
    trace s' = trace s ++
      [Result (VRef (next_loc s));
       SendJson (JObj {[ "status" := JStr "filled";
                         "field" := JStr (classify text);
                         "value" := JStr text ]})] /\
    heap s' !! next_loc s
      = Some {[ "status" := VStr "filled";
                "field" := VStr (classify text);
                "value" := VStr text ]}.
Proof.
  intros Hwf Hne. pose proof Hwf as [(d & Hd & _) Hlt _].
  eexists _, d. cbv zeta.
  split; [apply (fill_form_field_ok_run s Hwf value d Hd Hne)|].
  split; [exact Hd|].
  unfold fields_of. cbn [heap next_loc trace form_state fields].
  split; [rewrite lookup_insert_ne by lia; apply lookup_insert_eq|].
  split; [reflexivity|]. apply lookup_insert_eq.
Qed.

Lemma classify_email text :
  classify text = "email" <-> PyStr.contains "@" text = true.
Proof. unfold classify. by destruct (PyStr.contains "@" text). Qed.


(** ** The receive loop *)

Section ReceiveLoop.
Import Transport.

Lemma iteration_delivered t msg s :
  received t = Done msg -> push_raises t = None ->
  iteration t s = (Done Next, absorb msg s).
Proof.
  intros Hr Hp. unfold iteration, bind, try_except, receive, ret, absorb.
  rewrite Hr. unfold push_audio_frame, logger, modify. rewrite Hp.
  destruct msg as [[pl|] tx]; cbn [m_bytes m_text is_not_None audio_of].
  - destruct pl as [[|x b]|[|x b]|tr]; cbn [pushed log];
      rewrite ?app_nil_r; try reflexivity;
      by destruct (is_not_None tx).
  - rewrite !app_nil_r. destruct s. by destruct (is_not_None tx).
Qed.

Lemma while_loop_quiet pre rest s :
  Forall quiet pre ->
  while_loop (pre ++ rest) s = while_loop rest (absorbs pre s).
Proof.
  intros Hpre. revert s.
  induction Hpre as [|t pre (Hws & Hcl & Hp & msg & Hr) _ IH]; intros s;
    [reflexivity|].
  cbn [app while_loop absorbs]. rewrite Hws, Hcl, Hr. cbn [andb negb].
  unfold bind at 1. rewrite (iteration_delivered t msg s Hr Hp). apply IH.
Qed.

Lemma absorb_frames msg s :
  exists new, pushed (absorb msg s) = pushed s ++ new
              /\ Forall well_formed_frame new.
Proof.
  unfold absorb. cbn [pushed]. eexists. split; [reflexivity|].
  destruct (audio_of _); [|constructor].
  constructor; [|constructor]. by split.
Qed.

Lemma iteration_frames t s r s' :
  iteration t s = (r, s') ->
  exists new, pushed s' = pushed s ++ new /\ Forall well_formed_frame new.
Proof.
  unfold iteration, bind, try_except, receive, ret.
  destruct (received t) as [msg|e].
  - unfold push_audio_frame, logger, modify, raise.
    destruct (is_not_None (m_bytes msg)), (audio_of (m_bytes msg)) as [b|],
      (push_raises t) as [e|], (is_not_None (m_text msg));
      intros [= <- <-]; cbn [pushed];
      first [ by exists []; rewrite app_nil_r
            | eexists; split; [reflexivity|];
              constructor; [by split | constructor] ].
  - destruct (is_disconnect e); intros [= <- <-];
      by exists []; rewrite app_nil_r.
Qed.

Lemma while_loop_frames script s r s' :
  while_loop script s = (r, s') ->
  exists new, pushed s' = pushed s ++ new /\ Forall well_formed_frame new.
Proof.
  revert s. induction script as [|t script IH]; intros s; cbn [while_loop].
  - intros [= <- <-]. by exists []; rewrite app_nil_r.
  - destruct (ws_set t && negb (closed t)).
    + unfold bind. destruct (iteration t s) as [[fl|e] s1] eqn:Hit.
      * destruct (iteration_frames _ _ _ _ Hit) as (n1 & E1 & F1).
        destruct fl.
        -- intros Hw. destruct (IH _ Hw) as (n2 & E2 & F2).
           exists (n1 ++ n2). rewrite E2, E1, app_assoc.
           split; [done|]. by apply Forall_app.
        -- intros [= <- <-]. by exists n1.
      * destruct (iteration_frames _ _ _ _ Hit) as (n1 & E1 & F1).
        intros [= <- <-]. by exists n1.
    + intros [= <- <-]. by exists []; rewrite app_nil_r.
Qed.


Lemma receive_messages_after_quiet pre rest s :
  Forall quiet pre ->
  _receive_messages (pre ++ rest) s = _receive_messages rest (absorbs pre s).
Proof.
  intros Hpre. unfold _receive_messages, finally_return, try_except.
  by rewrite (while_loop_quiet pre rest s Hpre).
Qed.

Lemma receive_messages_raise t rest e s :
  ws_set t = true -> closed t = false -> received t = Raised e ->
  _receive_messages (t :: rest) s
  = (Done Returned,
     if is_disconnect e then s else mkT (pushed s) (log s ++ logged_for e)).
Proof.
  intros Hws Hcl Hr.
  unfold _receive_messages, finally_return, try_except at 1.
  cbn [while_loop]. rewrite Hws, Hcl. cbn [andb negb].
  unfold bind at 1, iteration, bind at 1, try_except, receive, bind, ret.
  rewrite Hr. unfold logged_for.
  destruct e; cbn [is_disconnect is_Exception]; try reflexivity.
  unfold logger, modify. cbn. destruct s. cbn. by rewrite app_nil_r.
Qed.

Lemma receive_messages_push_raise t rest msg b e s :
  ws_set t = true -> closed t = false -> received t = Done msg ->
  audio_of (m_bytes msg) = Some b -> push_raises t = Some e ->
  _receive_messages (t :: rest) s
  = (Done Returned,
     mkT (pushed s) ((log s ++ [DebugAudioReceived]) ++ logged_for e)).
Proof.
  intros Hws Hcl Hr Ha Hp.
  unfold _receive_messages, finally_return, try_except at 1.
  cbn [while_loop]. rewrite Hws, Hcl. cbn [andb negb].
  unfold bind at 1, iteration, bind at 1, try_except, receive, bind, ret.
  rewrite Hr, Ha. unfold push_audio_frame. rewrite Hp.
  assert (Hb : is_not_None (m_bytes msg) = true).
  { destruct (m_bytes msg); [done|discriminate]. }
  rewrite Hb. unfold logger, modify, raise, logged_for.
  destruct (is_Exception e); cbn [pushed log]; [reflexivity|].
  by rewrite app_nil_r.
Qed.

(** C8, as stated, fails: an exception that is not an [Exception], such as
    [CancelledError] raised by [receive], is caught by no [except] clause;
    [finally: return] discards it and nothing is logged. *)
Lemma cancelled_receive_is_not_logged :
  _receive_messages
    [Tick true false (Raised (PyBaseException "CancelledError")) None]
    (mkT [] [])
  = (Done Returned, mkT [] []).
Proof. reflexivity. Qed.

(** C8, amended: whatever the surroundings do, the receive coroutine never
    lets an exception out, and every frame it pushes has 16000 Hz and one
    channel.  A delivered message is pushed as such a frame when it carries
    non-empty bytes and otherwise adds no frame and no error entry, and the
    loop goes on.  After any number of such turns: [WebSocketDisconnect]
    or [ConnectionClosedError] raised by [receive] ends the coroutine with
    nothing logged; any other [Exception] raised by [receive], and any
    [Exception] raised by [push_audio_frame], ends it with that exception
    logged; an exception that is not an [Exception] ends it too, but
    unlogged. *)
Theorem receive_messages_never_raises (script : list tick) (s : T) :
  (exists st s',
     _receive_messages script s = (Done st, s') /\
     exists new, pushed s' = pushed s ++ new
                 /\ Forall well_formed_frame new)
  /\
  (forall t msg,
     received t = Done msg -> push_raises t = None ->
     iteration t s = (Done Next, absorb msg s) /\
     pushed (absorb msg s)
       = pushed s ++ match audio_of (m_bytes msg) with
                     | Some b => [Frame b 16000%N 1%N]
                     | None => []
                     end /\
     (m_bytes msg = None -> absorb msg s = s))
  /\
  (forall pre t rest e,
     Forall quiet pre ->
     ws_set t = true -> closed t = false -> received t = Raised e ->
     let s1 := absorbs pre s in
     _receive_messages (pre ++ t :: rest) s
     = (Done Returned,
        match e with
        | WebSocketDisconnect | ConnectionClosedError => s1
        | PyException _ => mkT (pushed s1) (log s1 ++ [LogException e])
        | PyBaseException _ => s1
        end))
  /\
  (forall pre t rest msg b e,
     Forall quiet pre ->
     ws_set t = true -> closed t = false -> received t = Done msg ->
     audio_of (m_bytes msg) = Some b -> push_raises t = Some e ->
     let s1 := absorbs pre s in
     _receive_messages (pre ++ t :: rest) s
     = (Done Returned,
        match e with
        | PyBaseException _ =>
            mkT (pushed s1) (log s1 ++ [DebugAudioReceived])
        | _ =>
            mkT (pushed s1) (log s1 ++ [DebugAudioReceived; LogException e])
        end)).
Proof.
  split; [|split; [|split]].
  - unfold _receive_messages, finally_return, try_except.
    destruct (while_loop script s) as [[st|e] s1] eqn:Hw.
    + exists st, s1. split; [reflexivity|]. by eapply while_loop_frames.
    + destruct (while_loop_frames _ _ _ _ Hw) as (new & E & F).
      destruct (is_Exception e).
      * eexists _, _. split; [reflexivity|]. exists new.
        unfold logger, modify. cbn [pushed]. by split.
      * exists Returned, s1. split; [reflexivity|]. by exists new.
  - intros t msg Hr Hp. split; [by apply iteration_delivered|].
    split; [reflexivity|]. intros Hnone. unfold absorb. rewrite Hnone.
    cbn [audio_of is_not_None]. rewrite !app_nil_r. by destruct s.
  - intros pre t rest e Hpre Hws Hcl Hr. cbv zeta.
    rewrite (receive_messages_after_quiet pre _ s Hpre).
    rewrite (receive_messages_raise t rest e _ Hws Hcl Hr).
    destruct e; cbn [is_disconnect logged_for is_Exception];
      try reflexivity.
    rewrite app_nil_r. by destruct (absorbs pre s).
  - intros pre t rest msg b e Hpre Hws Hcl Hr Ha Hp. cbv zeta.
    rewrite (receive_messages_after_quiet pre _ s Hpre).
    rewrite (receive_messages_push_raise t rest msg b e _ Hws Hcl Hr Ha Hp).
    unfold logged_for.
    destruct e; cbn [is_Exception]; rewrite <- ?app_assoc, ?app_nil_r;
      reflexivity.
Qed.

End ReceiveLoop.

Lemma receive_messages_never_raises_witness :
  let audio := Transport.Tick true false
                 (Done (Transport.Message
                          (Some (Transport.Bytes [Byte.x01; Byte.x02])) None))
                 None in
  let ping := Transport.Tick true false
                (Done (Transport.Message None (Some (Transport.Other true))))
                None in
  let broken := Transport.Tick true false
                  (Raised (PyException "RuntimeError")) None in
  let full := Transport.Tick true false
                (Done (Transport.Message
                         (Some (Transport.Bytes [Byte.x03])) None))
                (Some WebSocketDisconnect) in
  Forall quiet [audio; ping] /\
  Transport._receive_messages [audio; ping; broken] (Transport.mkT [] [])
  = (Done Transport.Returned,
     Transport.mkT [Transport.Frame [Byte.x01; Byte.x02] 16000%N 1%N]
                   [Transport.DebugAudioReceived;
                    Transport.LogException (PyException "RuntimeError")]) /\
  Transport._receive_messages [audio; ping; full] (Transport.mkT [] [])
  = (Done Transport.Returned,
     Transport.mkT [Transport.Frame [Byte.x01; Byte.x02] 16000%N 1%N]
                   [Transport.DebugAudioReceived;
                    Transport.DebugAudioReceived;
                    Transport.LogException WebSocketDisconnect]).
Proof.
  cbv zeta.
  assert (Hq : Forall quiet
                 [Transport.Tick true false
                    (Done (Transport.Message
                             (Some (Transport.Bytes [Byte.x01; Byte.x02])) None))
                    None;
                  Transport.Tick true false
                    (Done (Transport.Message None (Some (Transport.Other true))))
                    None]).
  { repeat constructor; cbn; eauto. }
  split; [exact Hq|].
  destruct (receive_messages_never_raises [] (Transport.mkT [] []))
    as (_ & _ & Hrecv & Hpush).
  split.
  - exact (Hrecv _ (Transport.Tick true false
                      (Raised (PyException "RuntimeError")) None)
                 [] (PyException "RuntimeError") Hq eq_refl eq_refl eq_refl).
  - exact (Hpush _ (Transport.Tick true false
                      (Done (Transport.Message
                               (Some (Transport.Bytes [Byte.x03])) None))
                      (Some WebSocketDisconnect))
                 [] _ [Byte.x03] WebSocketDisconnect Hq
                 eq_refl eq_refl eq_refl eq_refl eq_refl).
Defined.

(** ** Accepting a connection without a credential *)

(** C9: when [GEMINI_API_KEY] is unset or empty, the endpoint accepts,
    sends exactly [{"error": "GEMINI_API_KEY not set"}], closes with code
    4401 and returns normally; the pipeline is neither built nor run, and
    no other connection of the server is touched. *)
Theorem missing_credential_closes_4401 (e : Endpoint.env) (c : list Endpoint.ws_event) :
  Endpoint.missing (Endpoint.GEMINI_API_KEY e) = true ->
  let sent :=
    [Endpoint.Accept;
     Endpoint.WsSendJson (JObj {[ "error" := JStr "GEMINI_API_KEY not set" ]});
     Endpoint.Close 4401%N] in
  Endpoint.websocket_endpoint e c = (Done tt, c ++ sent) /\
  ~ In Endpoint.BuildPipeline sent /\ ~ In Endpoint.RunPipeline sent /\
  forall id srv,
    fst (Endpoint.serve id e srv) = Done tt /\
    snd (Endpoint.serve id e srv) !! id = Some (default [] (srv !! id) ++ sent) /\
    forall id', id' <> id -> snd (Endpoint.serve id e srv) !! id' = srv !! id'.
Proof.
  intros Hmiss. cbv zeta.
  assert (Hrun : forall c0,
             Endpoint.websocket_endpoint e c0
             = (Done tt,
                c0 ++ [Endpoint.Accept;
                       Endpoint.WsSendJson
                         (JObj {[ "error" := JStr "GEMINI_API_KEY not set" ]});
                       Endpoint.Close 4401%N])).
  { intros c0. unfold Endpoint.websocket_endpoint, Endpoint.act, bind, modify, ret.
    rewrite Hmiss. by rewrite <- !app_assoc. }
  split; [apply Hrun|].
  split; [intros [H|[H|[H|[]]]]; discriminate H|].
  split; [intros [H|[H|[H|[]]]]; discriminate H|].
  intros id srv. unfold Endpoint.serve. rewrite Hrun. cbn [fst snd].
  split; [reflexivity|]. split; [apply lookup_insert_eq|].
  intros id' Hne. by apply lookup_insert_ne.
Qed.

Lemma missing_credential_closes_4401_witness :
  Endpoint.missing None = true /\
  Endpoint.websocket_endpoint
    (Endpoint.Env None (Done tt) (Raised (PyException "unused"))) []
  = (Done tt,
     [Endpoint.Accept;
      Endpoint.WsSendJson (JObj {[ "error" := JStr "GEMINI_API_KEY not set" ]});
      Endpoint.Close 4401%N]).
Proof.
  split; [reflexivity|].
  exact (proj1 (missing_credential_closes_4401
                  (Endpoint.Env None (Done tt) (Raised (PyException "unused"))) []
                  eq_refl)).
Defined.

(** ** Neither pattern matches the empty string *)

Section NonEmpty.
Import PyStr Re.

Lemma eat_taken p c c' :
  eat p c = Some c' -> taken c' = taken c + String.length p.
Proof.
  revert c. induction p as [|a p IH]; intros [b s n] H; cbn [eat] in H.
  - injection H as <-. cbn. lia.
  - cbn [ahead] in H. destruct s as [|x s]; [done|].
    destruct (Ascii.eqb a x); [|done].
    apply IH in H. cbn [taken String.length] in *. lia.
Qed.

Lemma space_runs_taken s n c' : In c' (space_runs s n) -> n < taken c'.
Proof.
  revert n. induction s as [|x s IH]; intros n; cbn [space_runs]; [done|].
  destruct (is_space x); [|done]. rewrite in_app_iff. intros [H|[<-|[]]].
  - apply IH in H. lia.
  - cbn. lia.
Qed.

Lemma rmatch_taken r c c' : In c' (rmatch r c) -> taken c <= taken c'.
Proof.
  revert c c'. induction r as [p| | |a IHa b IHb|a IHa b IHb|a IHa];
    intros c c'; cbn [rmatch].
  - destruct (eat p c) as [c1|] eqn:E; [|done]. intros [<-|[]].
    apply eat_taken in E. lia.
  - intros H. apply space_runs_taken in H. lia.
  - destruct (at_boundary c); [|done]. by intros [<-|[]].
  - rewrite in_flat_map. intros (c1 & H1 & H2).
    apply IHa in H1. apply IHb in H2. lia.
  - rewrite in_app_iff. intros [H|H]; eauto.
  - rewrite in_app_iff. intros [H|[<-|[]]]; eauto.
Qed.

Lemma head_In {A} (l : list A) x : head l = Some x -> In x l.
Proof. destruct l; [done|]. intros [= ->]. by left. Qed.

Lemma at_rate_nonempty prev s : match_here at_rate_re prev s <> Some 0.
Proof.
  unfold match_here. destruct (head _) as [c'|] eqn:E; [|done].
  apply head_In in E. unfold at_rate_re in E.
  change (rmatch (Seq SpacePlus ?r) ?c)
    with (flat_map (rmatch r) (space_runs (ahead c) (taken c))) in E.
  apply in_flat_map in E as (c1 & H1 & H2).
  apply space_runs_taken in H1. apply rmatch_taken in H2.
  cbn [fmap option_fmap option_map]. intros [= H0].
  cbn [start_at taken] in *. lia.
Qed.

Lemma intro_nonempty prev s : match_here intro_re prev s <> Some 0.
Proof.
  unfold match_here. destruct (head _) as [c'|] eqn:E; [|done].
  apply head_In in E. unfold intro_re in E.
  change (rmatch (Seq WordB (Seq ?a WordB)) ?c)
    with (flat_map (fun c1 => flat_map (rmatch WordB) (rmatch a c1))
                   (rmatch WordB c)) in E.
  apply in_flat_map in E as (c1 & H1 & H2).
  apply rmatch_taken in H1.
  apply in_flat_map in H2 as (c2 & H2 & H3).
  apply rmatch_taken in H3.
  assert (taken c1 < taken c2).
  { cbn [rmatch] in H2.
    repeat (apply in_app_iff in H2 as [H2|H2]);
      (destruct (eat _ c1) as [c3|] eqn:Ee; [|done]);
      destruct H2 as [<-|[]]; apply eat_taken in Ee; cbn in Ee; lia. }
  cbn [fmap option_fmap option_map]. intros [= H0].
  cbn [start_at taken] in *. lia.
Qed.

End NonEmpty.


(** * Further properties *)

(** ** What a call does to the store *)

Ltac call_cases s t Hwf d Hd :=
  let value := fresh "value" in
  let He := fresh "He" in
  destruct t as [|value|]; cbn [call];
  [ rewrite (open_form_run s Hwf)
  | destruct (decide (normalize value = EmptyString)) as [He|He];
    [ rewrite (fill_form_field_error_run s Hwf value d Hd He)
    | rewrite (fill_form_field_ok_run s Hwf value d Hd He) ]
  | rewrite (submit_form_run s Hwf d Hd) ];
  cbn [snd fst heap next_loc trace form_state fields form_type].

Lemma is_empty_false t : t <> EmptyString -> PyStr.is_empty t = false.
Proof. by destruct t. Qed.

Lemma call_fields s t d :
  wf s -> fields_of s = Some d ->
  fields_of (snd (call t s)) = Some (new_fields t s d).
Proof.
  intros Hwf Hd. pose proof Hwf as [_ Hlt _]. unfold fields_of.
  call_cases s t Hwf d Hd; cbn [new_fields].
  - rewrite lookup_insert_ne by lia. apply lookup_insert_eq.
  - rewrite He. cbn [PyStr.is_empty].
    rewrite lookup_insert_ne by lia. apply lookup_insert_eq.
  - rewrite (is_empty_false _ He).
    rewrite lookup_insert_ne by lia. apply lookup_insert_eq.
  - apply lookup_insert_eq.
Qed.

Lemma call_heap_frame s t l0 :
  wf s -> l0 < next_loc s -> l0 <> fields (form_state s) ->
  heap (snd (call t s)) !! l0 = heap s !! l0.
Proof.
  intros Hwf Hl0 Hne. pose proof Hwf as [(d & Hd & _) Hlt _].
  call_cases s t Hwf d Hd; by rewrite !lookup_insert_ne by lia.
Qed.

Lemma call_trace s t :
  wf s ->
  exists l j,
    trace (snd (call t s)) = trace s ++ [Result (VRef l); SendJson j] /\
    next_loc s <= l /\ l < next_loc (snd (call t s)).
Proof.
  intros Hwf. pose proof Hwf as [(d & Hd & _) Hlt _].
  call_cases s t Hwf d Hd; eexists _, _; (split; [reflexivity|lia]).
Qed.

Lemma call_next_loc s t :
  wf s -> next_loc s < next_loc (snd (call t s)).
Proof.
  intros Hwf. pose proof Hwf as [(d & Hd & _) Hlt _].
  call_cases s t Hwf d Hd; lia.
Qed.

Lemma call_snd s t :
  wf s -> call t s = (Done tt, snd (call t s)) /\ wf (snd (call t s))
          /\ fields (form_state (snd (call t s))) = fields (form_state s).
Proof.
  intros Hwf. destruct (call_returns s t Hwf) as (s' & Hrun & Hwf' & Hf & _).
  rewrite Hrun. cbn [snd]. split; [reflexivity|]. split; [exact Hwf'|exact Hf].
Qed.

Lemma run_cons t ts s :
  wf s -> run (t :: ts) s = run ts (snd (call t s)).
Proof.
  intros Hwf. destruct (call_snd s t Hwf) as (Hrun & _).
  cbn [run]. unfold bind at 1. by rewrite Hrun.
Qed.

Lemma run_wf ts s :
  wf s -> run ts s = (Done tt, snd (run ts s)) /\ wf (snd (run ts s))
          /\ fields (form_state (snd (run ts s))) = fields (form_state s)
          /\ next_loc s <= next_loc (snd (run ts s)).
Proof.
  revert s. induction ts as [|t ts IH]; intros s Hwf.
  - cbn [run ret snd]. split; [reflexivity|]. split; [exact Hwf|]. split; [reflexivity|lia].
  - rewrite (run_cons t ts s Hwf).
    destruct (call_snd s t Hwf) as (_ & Hwf1 & Hf1).
    destruct (IH _ Hwf1) as (Hrun & Hwf2 & Hf2 & Hn2).
    pose proof (call_next_loc s t Hwf) as Hn1.
    split; [exact Hrun|]. split; [exact Hwf2|]. split; [congruence|lia].
Qed.

Lemma snd_run_nil (s : Session) : snd (run [] s) = s.
Proof. reflexivity. Qed.

Lemma run_two t1 t2 s :
  wf s -> snd (run [t1; t2] s) = snd (call t2 (snd (call t1 s))).
Proof.
  intros Hwf. destruct (call_snd s t1 Hwf) as (_ & Hwf1 & _).
  rewrite (run_cons _ _ s Hwf), (run_cons _ _ _ Hwf1). apply snd_run_nil.
Qed.

Lemma reachable_step_snd s t r s' :
  call t s = (r, s') -> s' = snd (call t s).
Proof. intros H. by rewrite H. Qed.

Lemma stored_empty : stored ∅.
Proof. intros k v H. by rewrite lookup_empty in H. Qed.

Lemma stored_new_fields t s d : stored d -> stored (new_fields t s d).
Proof.
  intros Hd.
  assert (Ha : stored (after_implicit_open s d)).
  { unfold after_implicit_open. destruct (form_type _); [exact Hd|apply stored_empty]. }
  destruct t as [|value|]; cbn [new_fields]; try apply stored_empty.
  destruct (PyStr.is_empty (normalize value)) eqn:E; [exact Ha|].
  intros k v. rewrite lookup_insert. case_decide as Hk.
  - intros [= <-]. exists value. split; [reflexivity|]. split; [|by symmetry].
    intros H0. rewrite H0 in E. discriminate E.
  - apply Ha.
Qed.

Lemma stored_key d k v :
  stored d -> d !! k = Some v -> k = "email" \/ k = "name".
Proof.
  intros Hd Hk. destruct (Hd k v Hk) as (value & _ & _ & ->).
  unfold classify. destruct (PyStr.contains _ _); auto.
Qed.

(** What holds of every reachable session. *)
Lemma reachable_facts s :
  reachable s ->
  wf s /\ fields (form_state s) = 0 /\ 0 < next_loc s /\
  (exists d, fields_of s = Some d /\ stored d) /\
  (form_type (form_state s) = None <-> trace s = []) /\
  (forall t, form_type (form_state s) = Some t -> t = "registration") /\
  (forall v, In (Result v) (trace s) ->
             exists l, v = VRef l /\ 0 < l /\ l < next_loc s).
Proof.
  induction 1 as [|s t r s' Hs IH Hcall].
  - split; [apply wf_initial|]. split; [reflexivity|]. split; [cbn; lia|].
    split; [exists ∅; split; [reflexivity|apply stored_empty]|].
    split; [done|]. split; [intros t [=]|]. intros v [].
  - destruct IH as (Hwf & Hf0 & Hpos & (d & Hd & Hst) & Hnone & Hreg & Hres).
    apply reachable_step_snd in Hcall. subst s'.
    destruct (call_snd s t Hwf) as (_ & Hwf1 & Hf1).
    destruct (call_returns s t Hwf) as (s1 & Hrun1 & _ & _ & Hft).
    assert (s1 = snd (call t s)) as -> by by rewrite Hrun1.
    destruct (call_trace s t Hwf) as (l & j & Htr & Hl1 & Hl2).
    pose proof (call_next_loc s t Hwf) as Hn.
    split; [exact Hwf1|]. split; [congruence|]. split; [lia|].
    split; [exists (new_fields t s d); split;
            [by apply call_fields | by apply stored_new_fields]|].
    split; [|split].
    + rewrite Hft, Htr. split; [done|]. intros E.
      by apply app_eq_nil in E as [_ E].
    + rewrite Hft. intros t0 [= <-]. destruct t as [|value|]; try reflexivity.
      destruct (form_type (form_state s)) as [t1|] eqn:E; [|reflexivity].
      cbn [default from_option id]. by apply Hreg.
    + intros v. rewrite Htr, in_app_iff. intros [Hin|[Hin|[Hin|[]]]].
      * destruct (Hres v Hin) as (l0 & -> & H1 & H2). exists l0.
        split; [reflexivity|lia].
      * injection Hin as <-. exists l. split; [reflexivity|lia].
      * discriminate Hin.
Qed.

(** ** Sequences of tool calls *)

(** X1: two successful [fill_form_field] calls in a row.  The second value
    is stored under its field; if both values fall in the same field the
    first one is overwritten, otherwise both are kept; no other key is
    touched. *)
Theorem fill_twice_last_write_wins (v1 v2 : string) (s : Session) :
  wf s ->
  normalize v1 <> EmptyString -> normalize v2 <> EmptyString ->
  exists s' d d',
    let k1 := classify (normalize v1) in
    let k2 := classify (normalize v2) in
    run [FillFormField v1; FillFormField v2] s = (Done tt, s') /\
    fields_of s = Some d /\ fields_of s' = Some d' /\
    d' !! k2 = Some (VStr (normalize v2)) /\
    (k1 = k2 ->
     d' = <[k2 := VStr (normalize v2)]> (after_implicit_open s d)) /\
    (k1 <> k2 -> d' !! k1 = Some (VStr (normalize v1))) /\
    (forall k, k <> k1 -> k <> k2 -> d' !! k = after_implicit_open s d !! k).
Proof.
  intros Hwf H1 H2. pose proof Hwf as [(d & Hd & _) _ _].
  destruct (run_wf [FillFormField v1; FillFormField v2] s Hwf) as (Hrun & _).
  destruct (call_snd s (FillFormField v1) Hwf) as (_ & Hwf1 & _).
  destruct (call_returns s (FillFormField v1) Hwf) as (s1 & Hrun1 & _ & _ & Hft1).
  assert (s1 = snd (call (FillFormField v1) s)) as -> by by rewrite Hrun1.
  pose proof (call_fields s (FillFormField v1) d Hwf Hd) as Hd1.
  pose proof (call_fields _ (FillFormField v2) _ Hwf1 Hd1) as Hd2.
  cbn [new_fields] in Hd1, Hd2.
  rewrite (is_empty_false _ H1) in Hd2. rewrite (is_empty_false _ H2) in Hd2.
  unfold after_implicit_open at 1 in Hd2. rewrite Hft1 in Hd2.
  eexists _, d, _. cbv zeta. split; [exact Hrun|]. split; [exact Hd|].
  split.
  { rewrite (run_two _ _ s Hwf). exact Hd2. }
  split; [apply lookup_insert_eq|]. split; [|split].
  - intros ->. apply insert_insert_eq.
  - intros Hne. rewrite lookup_insert_ne by done. apply lookup_insert_eq.
  - intros k Hk1 Hk2. by rewrite !lookup_insert_ne.
Qed.

Lemma fill_twice_last_write_wins_witness :
  wf initial_session /\
  normalize "I am Ann" <> EmptyString /\ normalize "my name is Bob" <> EmptyString /\
  exists s',
    run [FillFormField "I am Ann"; FillFormField "my name is Bob"] initial_session
      = (Done tt, s') /\
    fields_of s' = Some {[ "name" := VStr "bob" ]}.
Proof.
  split; [apply wf_initial|]. split; [by vm_compute|]. split; [by vm_compute|].
  destruct (fill_twice_last_write_wins "I am Ann" "my name is Bob"
              initial_session wf_initial)
    as (s' & d & d' & Hrun & Hd & Hd' & _ & Hsame & _);
    [by vm_compute | by vm_compute |].
  exists s'. split; [exact Hrun|]. rewrite Hd'. f_equal.
  rewrite (Hsame eq_refl). injection Hd as <-. by vm_compute.
Defined.

Lemma stored_dump_entries s d :
  fields_of s = Some d -> stored d ->
  FormStateM.dump_entries s !! "form_type" = Some (FormStateM.form_type_val s) /\
  (forall k, k <> "form_type" -> FormStateM.dump_entries s !! k = d !! k).
Proof.
  intros Hd Hst.
  assert (Hnoft : d !! "form_type" = None).
  { destruct (d !! "form_type") as [v|] eqn:E; [|done].
    destruct (stored_key d _ v Hst E); discriminate. }
  split.
  - unfold FormStateM.dump_entries. fold (fields_of s). rewrite Hd.
    unfold default, from_option, id.
    rewrite lookup_union_r by exact Hnoft. apply lookup_singleton_eq.
  - intros k Hk. unfold FormStateM.dump_entries. fold (fields_of s).
    rewrite Hd. unfold default, from_option, id.
    rewrite lookup_union, lookup_singleton_ne by done.
    by destruct (d !! k).
Qed.

(** X2: in every session reachable by tool calls, the fields dictionary has
    no key besides ["name"] and ["email"]; each value is a non-empty
    normalised text, the one under ["email"] contains [@] and the one under
    ["name"] does not; and [dump()] reports [form_type] unshadowed. *)
Theorem reachable_fields_are_classified (s : Session) :
  reachable s ->
  exists d,
    fields_of s = Some d /\
    (forall k v, d !! k = Some v ->
       exists value,
         v = VStr (normalize value) /\ normalize value <> EmptyString /\
         ((k = "email" /\ PyStr.contains "@" (normalize value) = true) \/
          (k = "name" /\ PyStr.contains "@" (normalize value) = false))) /\
    FormStateM.dump_entries s !! "form_type" = Some (FormStateM.form_type_val s) /\
    (forall k, k <> "form_type" -> FormStateM.dump_entries s !! k = d !! k).
Proof.
  intros Hs. destruct (reachable_facts s Hs) as (_ & _ & _ & (d & Hd & Hst) & _).
  exists d. split; [exact Hd|]. split; [|exact (stored_dump_entries s d Hd Hst)].
  intros k v Hk. destruct (Hst k v Hk) as (value & -> & Hne & ->).
  exists value. split; [reflexivity|]. split; [exact Hne|].
  unfold classify. destruct (PyStr.contains _ _); auto.
Qed.

Lemma reachable_fields_are_classified_witness :
  reachable john_mail_session /\
  exists d, fields_of john_mail_session = Some d /\
            FormStateM.dump_entries john_mail_session !! "form_type"
              = Some (VStr "registration").
Proof.
  split; [apply reachable_john_mail|].
  destruct (reachable_fields_are_classified john_mail_session reachable_john_mail)
    as (d & Hd & _ & Hft & _).
  exists d. split; [exact Hd|]. rewrite Hft. by vm_compute.
Defined.

(** X3: what [submit_form] sends from a reachable session.  The ["data"]
    object has every field as stored, and its ["form_type"] entry is
    ["registration"], except when [submit_form] is the very first call of
    the session: then no form was ever opened and the entry is [null]. *)
Theorem submitted_data_form_type (s : Session) :
  reachable s ->
  exists s' data d,
    submit_form s = (Done tt, s') /\
    fields_of s = Some d /\
    trace s' = trace s ++
      [Result (VRef (S (next_loc s)));
       SendJson (JObj {[ "status" := JStr "submitted"; "data" := JObj data ]})] /\
    data !! "form_type"
      = Some (match trace s with [] => JNull | _ => JStr "registration" end) /\
    (forall k, k <> "form_type" -> data !! k = atom_json <$> d !! k).
Proof.
  intros Hs.
  destruct (reachable_facts s Hs)
    as (Hwf & _ & _ & (d & Hd & Hst) & Hnone & Hreg & _).
  destruct (stored_dump_entries s d Hd Hst) as (Hft & Hother).
  eexists _, (atom_json <$> FormStateM.dump_entries s), d.
  split; [apply (submit_form_run s Hwf d Hd)|]. split; [exact Hd|].
  cbn [trace]. split; [reflexivity|]. split.
  - rewrite lookup_fmap, Hft. cbn. f_equal.
    unfold FormStateM.form_type_val.
    destruct (form_type (form_state s)) as [t|] eqn:E.
    + rewrite (Hreg t eq_refl). destruct (trace s) eqn:Et; [|reflexivity].
      destruct Hnone as [_ Hn]. by specialize (Hn eq_refl).
    + destruct Hnone as [Hn _]. by rewrite (Hn eq_refl).
  - intros k Hk. by rewrite lookup_fmap, (Hother k Hk).
Qed.

Lemma submitted_data_form_type_witness :
  reachable initial_session /\
  exists s',
    submit_form initial_session = (Done tt, s') /\
    trace s' =
      [Result (VRef 2);
       SendJson (JObj {[ "status" := JStr "submitted";
                         "data" := JObj {[ "form_type" := JNull ]} ]})].
Proof.
  split; [apply reach_init|].
  destruct (submitted_data_form_type initial_session reach_init)
    as (s' & data & d & Hrun & _ & _ & _).
  exists s'. split; [exact Hrun|].
  assert (s' = snd (submit_form initial_session)) as -> by by rewrite Hrun.
  by vm_compute.
Defined.

Lemma run_heap_frame ts s l :
  wf s -> l < next_loc s -> l <> fields (form_state s) ->
  heap (snd (run ts s)) !! l = heap s !! l.
Proof.
  revert s. induction ts as [|t ts IH]; intros s Hwf Hl Hne; [reflexivity|].
  rewrite (run_cons t ts s Hwf).
  destruct (call_snd s t Hwf) as (_ & Hwf1 & Hf1).
  pose proof (call_next_loc s t Hwf) as Hn.
  rewrite IH; [by apply call_heap_frame | exact Hwf1 | lia | congruence].
Qed.

Lemma call_output_pair s t :
  wf s ->
  exists l j,
    call_output t s = [Result (VRef l); SendJson j] /\
    trace (snd (call t s)) = trace s ++ call_output t s.
Proof.
  intros Hwf. destruct (call_trace s t Hwf) as (l & j & Htr & _).
  exists l, j. unfold call_output. rewrite Htr, drop_app_length. by split.
Qed.

Lemma run_output_trace ts s :
  wf s ->
  trace (snd (run ts s)) = trace s ++ run_output ts s /\
  length (run_output ts s) = 2 * length ts.
Proof.
  revert s. induction ts as [|t ts IH]; intros s Hwf.
  - cbn [run ret snd run_output length]. by rewrite app_nil_r.
  - rewrite (run_cons t ts s Hwf). cbn [run_output length].
    destruct (call_snd s t Hwf) as (_ & Hwf1 & _).
    destruct (call_output_pair s t Hwf) as (l & j & Hpair & Htr).
    destruct (IH _ Hwf1) as (Hrest & Hlen).
    rewrite Hrest, Htr, <- app_assoc, length_app, Hlen, Hpair. cbn [length].
    split; [reflexivity|lia].
Qed.

Lemma call_allocated s t :
  wf s ->
  (forall l, l < next_loc s -> is_Some (heap s !! l)) ->
  forall l, l < next_loc (snd (call t s)) ->
            is_Some (heap (snd (call t s)) !! l).
Proof.
  intros Hwf Hall l. pose proof Hwf as [(d & Hd & _) Hlt _].
  call_cases s t Hwf d Hd; intros Hl;
    rewrite ?lookup_insert; repeat case_decide; eauto; apply Hall; lia.
Qed.

Lemma flat_no_ref d k l : flat d -> d !! k = Some (VRef l) -> False.
Proof. intros Hd Hk. exact (Hd k _ Hk). Qed.

Lemma flat_dump_entries s d :
  fields_of s = Some d -> flat d -> flat (FormStateM.dump_entries s).
Proof.
  intros Hd Hflat. unfold FormStateM.dump_entries. fold (fields_of s).
  rewrite Hd. unfold default, from_option, id.
  apply flat_union; [exact Hflat|]. apply map_Forall_singleton.
  unfold FormStateM.form_type_val. by destruct (form_type _).
Qed.

Lemma flat_after_implicit_open s d : flat d -> flat (after_implicit_open s d).
Proof. unfold after_implicit_open. by destruct (form_type _). Qed.

(** Where the objects of the store come from after a call: they were
    there and are unchanged, or they hold no reference, or their only
    reference is to the dictionary [dump()] has just made. *)
Lemma call_heap_shape s t l d :
  wf s ->
  heap (snd (call t s)) !! l = Some d ->
  (l <> fields (form_state s) /\ heap s !! l = Some d) \/
  flat d \/
  (forall k l', d !! k = Some (VRef l') ->
     l' = next_loc s /\
     exists d', heap (snd (call t s)) !! l' = Some d' /\ flat d').
Proof.
  intros Hwf. pose proof Hwf as [(d0 & Hd0 & Hflat0) Hlt _].
  pose proof (flat_after_implicit_open s d0 Hflat0) as Hflat1.
  call_cases s t Hwf d0 Hd0; rewrite ?lookup_insert;
    repeat case_decide; try (intros [= <-]); auto 7.
  - right. right. intros k l'.
    rewrite lookup_insert. case_decide; [discriminate|].
    rewrite lookup_singleton. case_decide; [|discriminate].
    intros [= <-]. split; [reflexivity|].
    exists (FormStateM.dump_entries s). split.
    + rewrite !lookup_insert_ne by lia. apply lookup_insert_eq.
    + by apply (flat_dump_entries s d0).
  - right. left. by apply (flat_dump_entries s d0).
Qed.

Lemma reachable_heap_closed s :
  reachable s ->
  (forall l, l < next_loc s -> is_Some (heap s !! l)) /\
  (forall l d k l',
     heap s !! l = Some d -> d !! k = Some (VRef l') ->
     0 < l' /\ l' < next_loc s /\
     exists d', heap s !! l' = Some d' /\ flat d').
Proof.
  induction 1 as [|s t r s' Hs IH Hcall].
  - split.
    + intros l Hl. cbn in Hl. assert (l = 0) as -> by lia. by eexists.
    + intros l d k l' Hl Hk. cbn [initial_session heap] in Hl.
      apply lookup_singleton_Some in Hl as [_ <-].
      by rewrite lookup_empty in Hk.
  - destruct IH as (Hall & Hclosed).
    destruct (reachable_facts s Hs) as (Hwf & Hf0 & Hpos & _).
    apply reachable_step_snd in Hcall. subst s'.
    pose proof (call_next_loc s t Hwf) as Hn.
    split; [by apply call_allocated|].
    intros l d k l' Hl Hk.
    destruct (call_heap_shape s t l d Hwf Hl) as [[Hne Hold]|[Hflat|Hnew]].
    + destruct (Hclosed l d k l' Hold Hk) as (H0 & H1 & d' & Hd' & Hflat').
      split; [lia|]. split; [lia|]. exists d'. split; [|exact Hflat'].
      rewrite call_heap_frame; [exact Hd' | exact Hwf | lia | lia].
    + destruct (flat_no_ref d k l' Hflat Hk).
    + destruct (Hnew k l' Hk) as (-> & d' & Hd' & Hflat').
      split; [lia|]. split; [lia|]. by exists d'.
Qed.

(** X4: an object that has been handed to the result callback is in the
    store and is not the fields dictionary; neither it nor a dictionary it
    refers to (the ["data"] snapshot of a submitted result, which is not
    the fields dictionary either) is ever changed afterwards, whatever
    tool calls follow. *)
Theorem handed_out_objects_are_stable (s : Session) (v : pyval) :
  reachable s ->
  In (Result v) (trace s) ->
  exists l d,
    v = VRef l /\ heap s !! l = Some d /\
    l <> fields (form_state s) /\
    (forall ts, heap (snd (run ts s)) !! l = Some d) /\
    (forall k l',
       d !! k = Some (VRef l') ->
       exists d',
         heap s !! l' = Some d' /\ flat d' /\
         l' <> fields (form_state s) /\
         forall ts, heap (snd (run ts s)) !! l' = Some d').
Proof.
  intros Hs Hin.
  destruct (reachable_facts s Hs) as (Hwf & Hf0 & _ & _ & _ & _ & Hres).
  destruct (reachable_heap_closed s Hs) as (Hall & Hclosed).
  destruct (Hres v Hin) as (l & -> & Hpos & Hlt).
  destruct (Hall l Hlt) as (d & Hd).
  exists l, d. split; [reflexivity|]. split; [exact Hd|].
  split; [lia|]. split.
  - intros ts. rewrite run_heap_frame; [exact Hd | exact Hwf | exact Hlt | lia].
  - intros k l' Hk.
    destruct (Hclosed l d k l' Hd Hk) as (H0 & H1 & d' & Hd' & Hflat').
    exists d'. split; [exact Hd'|]. split; [exact Hflat'|].
    split; [lia|].
    intros ts. rewrite run_heap_frame; [exact Hd' | exact Hwf | exact H1 | lia].
Qed.

Lemma handed_out_objects_are_stable_witness :
  let s := snd (call SubmitForm john_session) in
  reachable s /\ In (Result (VRef 3)) (trace s) /\
  heap s !! (3 : loc) = Some {[ "status" := VStr "submitted"; "data" := VRef 2 ]} /\
  heap (snd (run [OpenForm; FillFormField "x"; SubmitForm] s)) !! (2 : loc)
  = Some {[ "form_type" := VStr "registration"; "name" := VStr "john" ]}.
Proof.
  cbv zeta.
  pose proof (reachable_call john_session SubmitForm reachable_john) as Hs.
  assert (Hin : In (Result (VRef 3)) (trace (snd (call SubmitForm john_session))))
    by (vm_compute; auto).
  assert (H3 : heap (snd (call SubmitForm john_session)) !! (3 : loc)
               = Some {[ "status" := VStr "submitted"; "data" := VRef 2 ]})
    by (vm_compute; reflexivity).
  assert (H2 : heap (snd (call SubmitForm john_session)) !! (2 : loc)
               = Some {[ "form_type" := VStr "registration";
                         "name" := VStr "john" ]})
    by (vm_compute; reflexivity).
  split; [exact Hs|]. split; [exact Hin|]. split; [exact H3|].
  destruct (handed_out_objects_are_stable _ (VRef 3) Hs Hin)
    as (l & d & Hl & Hd & _ & _ & Hnested).
  assert (El : l = 3) by congruence. subst l.
  rewrite H3 in Hd. apply (inj Some) in Hd.
  assert (Hk : d !! "data" = Some (VRef 2)).
  { rewrite <- Hd. vm_compute. reflexivity. }
  destruct (Hnested "data" 2 Hk) as (d' & Hd' & _ & _ & Hstable).
  rewrite Hstable. rewrite <- Hd'. exact H2.
Defined.

(** X5: any number of tool calls made one after the other from a
    well-formed session all return, and the trace grows by the outputs of
    the calls in the order of the calls: first what the first call emits
    in the starting session, then what the second emits in the session the
    first has left, and so on; each call emits one result followed by one
    client message. *)
Theorem run_outputs_in_call_order (ts : list tool) (s : Session) :
  wf s ->
  exists s',
    run ts s = (Done tt, s') /\
    trace s' = trace s ++ run_output ts s /\
    length (run_output ts s) = 2 * length ts /\
    (forall t s0, wf s0 ->
       exists l j,
         call_output t s0 = [Result (VRef l); SendJson j] /\
         trace (snd (call t s0)) = trace s0 ++ call_output t s0).
Proof.
  intros Hwf. destruct (run_wf ts s Hwf) as (Hrun & _).
  destruct (run_output_trace ts s Hwf) as (Htr & Hlen).
  exists (snd (run ts s)). split; [exact Hrun|]. split; [exact Htr|].
  split; [exact Hlen|]. intros t s0 Hwf0. by apply call_output_pair.
Qed.

Lemma run_outputs_in_call_order_witness :
  wf initial_session /\
  exists s',
    run [OpenForm; FillFormField "   "; SubmitForm] initial_session = (Done tt, s')
    /\ trace s' =
       [Result (VRef 1);
        SendJson (JObj {[ "status" := JStr "opened";
                          "form_type" := JStr "registration" ]});
        Result (VRef 2);
        SendJson (JObj {[ "error" := JStr "no_field_detected" ]});
        Result (VRef 4);
        SendJson (JObj {[ "status" := JStr "submitted";
                          "data" := JObj {[ "form_type" := JStr "registration" ]} ]})].
Proof.
  split; [apply wf_initial|].
  destruct (run_outputs_in_call_order
              [OpenForm; FillFormField "   "; SubmitForm] initial_session
              wf_initial) as (s' & Hrun & Htr & _).
  exists s'. split; [exact Hrun|]. rewrite Htr. by vm_compute.
Defined.

(** X6: after [open_form] or [submit_form], a successful
    [fill_form_field] leaves exactly one field: nothing recorded before the
    form was reopened is still there. *)
Theorem new_cycle_starts_clean (t0 : tool) (value : string) (s : Session) :
  wf s ->
  t0 = OpenForm \/ t0 = SubmitForm ->
  normalize value <> EmptyString ->
  exists s',
    run [t0; FillFormField value] s = (Done tt, s') /\
    fields_of s'
      = Some {[ classify (normalize value) := VStr (normalize value) ]}.
Proof.
  intros Hwf Ht0 Hne. pose proof Hwf as [(d & Hd & _) _ _].
  destruct (run_wf [t0; FillFormField value] s Hwf) as (Hrun & _).
  exists (snd (run [t0; FillFormField value] s)). split; [exact Hrun|].
  destruct (call_snd s t0 Hwf) as (_ & Hwf1 & _).
  pose proof (call_fields s t0 d Hwf Hd) as Hd1.
  rewrite (run_two _ _ s Hwf).
  rewrite (call_fields _ (FillFormField value) _ Hwf1 Hd1). cbn [new_fields].
  rewrite (is_empty_false _ Hne). f_equal.
  assert (He : new_fields t0 s d = ∅) by (by destruct Ht0 as [-> | ->]).
  rewrite He. unfold after_implicit_open.
  by destruct (form_type _); rewrite insert_empty.
Qed.

Lemma new_cycle_starts_clean_witness :
  wf john_mail_session /\ normalize "I'm Eve" <> EmptyString /\
  exists s',
    run [SubmitForm; FillFormField "I'm Eve"] john_mail_session = (Done tt, s')
    /\ fields_of s' = Some {[ "name" := VStr "eve" ]}.
Proof.
  pose proof (reachable_wf _ reachable_john_mail) as Hwf.
  split; [exact Hwf|]. split; [by vm_compute|].
  destruct (new_cycle_starts_clean SubmitForm "I'm Eve" john_mail_session
              Hwf (or_intror eq_refl)) as (s' & Hrun & Hf); [by vm_compute|].
  exists s'. split; [exact Hrun | exact Hf].
Defined.

(** X7: on a session with no form open, [fill_form_field] leaves the form
    state and the fields dictionary exactly as [open_form] followed by the
    same [fill_form_field] does: the implicit open is a full open. *)
Theorem fill_opens_implicitly (value : string) (s : Session) :
  wf s ->
  form_type (form_state s) = None ->
  exists a b,
    fill_form_field value s = (Done tt, a) /\
    run [OpenForm; FillFormField value] s = (Done tt, b) /\
    form_type (form_state a) = Some "registration" /\
    form_type (form_state b) = Some "registration" /\
    fields (form_state a) = fields (form_state b) /\
    fields_of a = fields_of b /\
    length (trace b) = length (trace a) + 2.
Proof.
  intros Hwf Hnone. pose proof Hwf as [(d & Hd & _) _ _].
  destruct (run_wf [OpenForm; FillFormField value] s Hwf) as (Hrun & _ & Hfb & _).
  destruct (call_snd s (FillFormField value) Hwf) as (Hruna & _ & Hfa).
  destruct (call_snd s OpenForm Hwf) as (_ & Hwf1 & _).
  exists (snd (call (FillFormField value) s)),
         (snd (run [OpenForm; FillFormField value] s)).
  split; [exact Hruna|]. split; [exact Hrun|].
  destruct (call_returns s (FillFormField value) Hwf) as (sa & Ha & _ & _ & Hfta).
  assert (sa = snd (call (FillFormField value) s)) as -> by by rewrite Ha.
  destruct (call_returns s OpenForm Hwf) as (s1 & H1 & _ & _ & Hft1).
  assert (s1 = snd (call OpenForm s)) as -> by by rewrite H1.
  destruct (call_returns _ (FillFormField value) Hwf1) as (sb & Hb & _ & _ & Hftb).
  assert (sb = snd (call (FillFormField value) (snd (call OpenForm s))))
    as -> by by rewrite Hb.
  pose proof (call_fields s OpenForm d Hwf Hd) as Hd1.
  assert (Hbeq : snd (run [OpenForm; FillFormField value] s)
                 = snd (call (FillFormField value) (snd (call OpenForm s)))).
  { apply (run_two _ _ s Hwf). }
  rewrite Hbeq.
  split; [by rewrite Hfta, Hnone|]. split; [by rewrite Hftb, Hft1|].
  split; [rewrite <- Hbeq; congruence|]. split.
  - rewrite (call_fields s _ d Hwf Hd), (call_fields _ _ _ Hwf1 Hd1).
    cbn [new_fields]. unfold after_implicit_open. by rewrite Hnone, Hft1.
  - destruct (call_trace s (FillFormField value) Hwf) as (la & ja & Hta & _).
    destruct (call_trace s OpenForm Hwf) as (l1 & j1 & Ht1 & _).
    destruct (call_trace _ (FillFormField value) Hwf1) as (lb & jb & Htb & _).
    rewrite Hta, Htb, Ht1, !length_app. cbn. lia.
Qed.

Lemma fill_opens_implicitly_witness :
  wf initial_session /\ form_type (form_state initial_session) = None /\
  exists a b,
    fill_form_field "Ann" initial_session = (Done tt, a) /\
    run [OpenForm; FillFormField "Ann"] initial_session = (Done tt, b) /\
    fields_of a = fields_of b.
Proof.
  split; [apply wf_initial|]. split; [reflexivity|].
  destruct (fill_opens_implicitly "Ann" initial_session wf_initial eq_refl)
    as (a & b & Ha & Hb & _ & _ & _ & Hf & _).
  exists a, b. split; [exact Ha|]. split; [exact Hb | exact Hf].
Defined.

(** ** More on the text methods *)

Section MoreText.
Import PyStr Re.

Lemma is_space_lower_char c : is_space (lower_char c) = is_space c.
Proof. destruct c as [[] [] [] [] [] [] [] []]; vm_compute; reflexivity. Qed.

Lemma no_upper_lower_char c : no_upper (lower_char c) = true.
Proof. destruct c as [[] [] [] [] [] [] [] []]; vm_compute; reflexivity. Qed.

Lemma lower_char_no_upper c : no_upper c = true -> lower_char c = c.
Proof. destruct c as [[] [] [] [] [] [] [] []]; vm_compute; (reflexivity || discriminate). Qed.

Lemma eqb_at_lower_char c :
  Ascii.eqb "@" (lower_char c) = Ascii.eqb "@" c.
Proof. destruct c as [[] [] [] [] [] [] [] []]; vm_compute; reflexivity. Qed.

Lemma all_lower P s :
  (forall c, P (lower_char c) = true) -> all P (lower s) = true.
Proof.
  intros HP. induction s as [|c s IH]; [reflexivity|].
  cbn [lower all]. by rewrite HP, IH.
Qed.

Lemma all_space_lower s : all is_space s = true -> all is_space (lower s) = true.
Proof.
  induction s as [|c s IH]; [reflexivity|]. cbn [lower all].
  rewrite !andb_true_iff, is_space_lower_char. intros [Hc Hs]. auto.
Qed.

Lemma lstrip_all_space s : all is_space s = true -> lstrip s = EmptyString.
Proof.
  induction s as [|c s IH]; [reflexivity|]. cbn [all lstrip].
  rewrite andb_true_iff. intros [-> Hs]. auto.
Qed.

Lemma all_lstrip P s : all P s = true -> all P (lstrip s) = true.
Proof.
  induction s as [|c s IH]; [reflexivity|]. intros H. cbn [lstrip].
  destruct (is_space c); [|exact H].
  cbn [all] in H. apply andb_true_iff in H as [_ H]. auto.
Qed.

Lemma all_rstrip P s : all P s = true -> all P (rstrip s) = true.
Proof.
  induction s as [|c s IH]; [reflexivity|]. cbn [all rstrip].
  rewrite andb_true_iff. intros [Hc Hs]. specialize (IH Hs).
  destruct (rstrip s) as [|x r].
  - destruct (is_space c); [reflexivity|]. cbn [all]. by rewrite Hc.
  - cbn [all] in *. by rewrite Hc, IH.
Qed.

Lemma all_sub_from P r repl prev s k :
  all P s = true -> all P repl = true ->
  all P (sub_from r repl prev s k) = true.
Proof.
  intros Hs Hrepl. revert prev k Hs.
  induction s as [|c s IH]; intros prev k Hs.
  - cbn [sub_from]. destruct k; [|reflexivity].
    by destruct (match_here r prev _).
  - cbn [all] in Hs. apply andb_true_iff in Hs as [Hc Hs].
    cbn [sub_from]. destruct k as [|k]; [|by apply IH].
    destruct (match_here r prev _) as [[|m]|].
    + rewrite all_app, Hrepl. cbn [all andb]. by rewrite Hc, IH.
    + by rewrite all_app, Hrepl, IH.
    + cbn [all]. by rewrite Hc, IH.
Qed.

Lemma lower_fixed s : all no_upper s = true -> lower s = s.
Proof.
  induction s as [|c s IH]; [reflexivity|]. cbn [all lower].
  rewrite andb_true_iff. intros [Hc Hs].
  by rewrite (lower_char_no_upper c Hc), (IH Hs).
Qed.

(** *** Trimming *)

Lemma lstrip_head s c t : lstrip s = String c t -> is_space c = false.
Proof.
  induction s as [|x s IH]; [discriminate|]. cbn [lstrip].
  destruct (is_space x) eqn:E; [exact IH|]. by intros [= <- <-].
Qed.

Lemma rstrip_head c s :
  is_space c = false -> exists r, rstrip (String c s) = String c r.
Proof.
  intros Hc. cbn [rstrip]. rewrite Hc. destruct (rstrip s); eauto.
Qed.

Lemma rstrip_idem s : rstrip (rstrip s) = rstrip s.
Proof.
  induction s as [|c s IH]; [reflexivity|]. cbn [rstrip].
  destruct (rstrip s) as [|x r] eqn:E.
  - destruct (is_space c) eqn:Ec; [reflexivity|]. cbn [rstrip]. by rewrite Ec.
  - change (rstrip (String c (String x r)))
      with (match rstrip (String x r) with
            | EmptyString =>
                if is_space c then EmptyString else String c EmptyString
            | r0 => String c r0
            end).
    by rewrite IH.
Qed.

Lemma rstrip_last s c : last_char (rstrip s) = Some c -> is_space c = false.
Proof.
  induction s as [|x s IH]; [discriminate|]. cbn [rstrip].
  destruct (rstrip s) as [|y r] eqn:E.
  - destruct (is_space x) eqn:Ex; [discriminate|]. by intros [= <-].
  - exact IH.
Qed.

Lemma strip_idem s : strip (strip s) = strip s.
Proof.
  unfold strip. destruct (lstrip s) as [|c t] eqn:E; [reflexivity|].
  pose proof (lstrip_head _ _ _ E) as Hc.
  destruct (rstrip_head c t Hc) as (r & Hr). rewrite Hr.
  cbn [lstrip]. rewrite Hc, <- Hr. apply rstrip_idem.
Qed.

Lemma strip_head s c t : strip s = String c t -> is_space c = false.
Proof.
  unfold strip. destruct (lstrip s) as [|x u] eqn:E; [discriminate|].
  pose proof (lstrip_head _ _ _ E) as Hx.
  destruct (rstrip_head x u Hx) as (r & ->). by intros [= <- <-].
Qed.

End MoreText.

Section NormalizeFacts.
Import PyStr Re.

Lemma sub_empty r repl prev :
  match_here r prev EmptyString = None ->
  sub_from r repl prev EmptyString 0 = EmptyString.
Proof. intros H. cbn [sub_from]. by rewrite H. Qed.

(** X8: a value made of white space only (the empty value included) is
    normalised to the empty text, so [fill_form_field] answers
    [{"error": "no_field_detected"}] on both channels and stores nothing. *)
Theorem blank_value_is_rejected (value : string) (s : Session) :
  all is_space value = true ->
  wf s ->
  normalize value = EmptyString /\
  exists s' d,
    fill_form_field value s = (Done tt, s') /\
    fields_of s = Some d /\
    fields_of s' = Some (after_implicit_open s d) /\
    trace s' = trace s ++
      [Result (VRef (next_loc s));
       SendJson (JObj {[ "error" := JStr "no_field_detected" ]})].
Proof.
  intros Hblank Hwf.
  assert (Hnorm : normalize value = EmptyString).
  { unfold normalize, strip. cbv zeta.
    rewrite (lstrip_all_space _ (all_space_lower _ Hblank)).
    reflexivity. }
  split; [exact Hnorm|].
  pose proof Hwf as [(d & Hd & _) Hlt _].
  eexists _, d.
  split; [apply (fill_form_field_error_run s Hwf value d Hd Hnorm)|].
  split; [exact Hd|]. unfold fields_of.
  cbn [heap next_loc trace form_state fields].
  split; [|reflexivity].
  rewrite lookup_insert_ne by lia. apply lookup_insert_eq.
Qed.

Lemma blank_value_is_rejected_witness :
  all is_space (String "009" (String "010" "  ")) = true /\
  wf john_session /\
  exists s',
    fill_form_field (String "009" (String "010" "  ")) john_session
      = (Done tt, s') /\
    fields_of s' = fields_of john_session.
Proof.
  pose proof (reachable_wf _ reachable_john) as Hwf.
  split; [reflexivity|]. split; [exact Hwf|].
  destruct (blank_value_is_rejected (String "009" (String "010" "  "))
              john_session eq_refl Hwf)
    as (_ & s' & d & Hrun & Hd & Hd' & _).
  exists s'. split; [exact Hrun|]. rewrite Hd', Hd. reflexivity.
Defined.

(** X9: the normalised text never starts or ends with white space; trimming
    it again changes nothing. *)
Theorem normalize_is_trimmed (value : string) :
  strip (normalize value) = normalize value /\
  (forall c t, normalize value = String c t -> is_space c = false) /\
  (forall c, last_char (normalize value) = Some c -> is_space c = false).
Proof.
  unfold normalize. cbv zeta. split; [apply strip_idem|]. split.
  - intros c t. apply strip_head.
  - intros c. unfold strip. apply rstrip_last.
Qed.

(** X10: the normalised text holds no upper-case letter, whatever the case
    of the value: lower-casing it again changes nothing. *)
Theorem normalize_is_lower_case (value : string) :
  all no_upper (normalize value) = true /\
  lower (normalize value) = normalize value.
Proof.
  assert (H : all no_upper (normalize value) = true).
  { unfold normalize, strip, sub. cbv zeta.
    apply all_rstrip, all_lstrip, all_sub_from; [|reflexivity].
    apply all_sub_from; [|reflexivity].
    apply all_rstrip, all_lstrip, all_lower, no_upper_lower_char. }
  split; [exact H | by apply lower_fixed].
Qed.

End NormalizeFacts.

(** ** An [@] in the value survives normalisation *)

Section AtSign.
Import PyStr Re.

Lemma append_assoc' x y z : (x +:+ y) +:+ z = x +:+ (y +:+ z).
Proof.
  induction x as [|c x IH]; [reflexivity|].
  change (String c x +:+ y) with (String c (x +:+ y)).
  change (String c (x +:+ y) +:+ z) with (String c ((x +:+ y) +:+ z)).
  change (String c x +:+ (y +:+ z)) with (String c (x +:+ (y +:+ z))).
  by rewrite IH.
Qed.

Lemma length_append x y :
  String.length (x +:+ y) = String.length x + String.length y.
Proof.
  induction x as [|c x IH]; [reflexivity|].
  change (String c x +:+ y) with (String c (x +:+ y)).
  cbn [String.length]. by rewrite IH.
Qed.

Lemma contains_all_space a m :
  is_space a = false -> all is_space m = true -> contains a m = false.
Proof.
  intros Ha. induction m as [|c m IH]; [reflexivity|]. cbn [all contains].
  rewrite andb_true_iff. intros [Hc Hm]. rewrite (IH Hm), orb_false_r.
  destruct (Ascii.eqb a c) eqn:E; [|reflexivity].
  apply Ascii.eqb_eq in E as ->. congruence.
Qed.

Lemma space_runs_covers s n c' :
  In c' (space_runs s n) ->
  exists m, s = m +:+ ahead c' /\ taken c' = n + String.length m
            /\ all is_space m = true.
Proof.
  revert n. induction s as [|x s IH]; intros n; cbn [space_runs]; [done|].
  destruct (is_space x) eqn:Ex; [|done]. rewrite in_app_iff.
  intros [H|[<-|[]]].
  - destruct (IH _ H) as (m & Hs & Ht & Hm). exists (String x m).
    change (String x m +:+ ahead c') with (String x (m +:+ ahead c')).
    rewrite <- Hs. cbn [String.length all]. rewrite Ex, Hm.
    split; [reflexivity|]. split; [lia|reflexivity].
  - exists (String x EmptyString). cbn [ahead taken String.length all].
    rewrite Ex. split; [reflexivity|]. split; [lia|reflexivity].
Qed.

Lemma rmatch_covers a r c c' :
  In c' (rmatch r c) ->
  exists m, ahead c = m +:+ ahead c' /\ taken c' = taken c + String.length m
            /\ (avoids a r = true -> contains a m = false).
Proof.
  revert c c'. induction r as [p| | |x IHx y IHy|x IHx y IHy|x IHx];
    intros c c'; cbn [rmatch avoids].
  - destruct (eat p c) as [c1|] eqn:E; [|done]. intros [<-|[]].
    exists p. split; [by apply eat_ahead|]. split; [by apply eat_taken|].
    apply negb_true_iff.
  - intros H. destruct (space_runs_covers _ _ _ H) as (m & Hs & Ht & Hm).
    exists m. split; [exact Hs|]. split; [exact Ht|].
    intros Ha. apply contains_all_space; [by apply negb_true_iff|exact Hm].
  - destruct (at_boundary c); [|done]. intros [<-|[]].
    exists EmptyString. split; [reflexivity|]. split; [cbn; lia|reflexivity].
  - rewrite in_flat_map. intros (c1 & H1 & H2).
    destruct (IHx _ _ H1) as (m1 & Hs1 & Ht1 & Hm1).
    destruct (IHy _ _ H2) as (m2 & Hs2 & Ht2 & Hm2).
    exists (m1 +:+ m2). rewrite append_assoc', <- Hs2, <- Hs1, length_append.
    split; [reflexivity|]. split; [lia|].
    intros Hxy. apply andb_true_iff in Hxy as [Hx Hy].
    by rewrite contains_app, (Hm1 Hx), (Hm2 Hy).
  - rewrite in_app_iff. intros [H|H].
    + destruct (IHx _ _ H) as (m & Hs & Ht & Hm). exists m.
      split; [exact Hs|]. split; [exact Ht|].
      intros Hxy. apply andb_true_iff in Hxy as [Hx Hy]. auto.
    + destruct (IHy _ _ H) as (m & Hs & Ht & Hm). exists m.
      split; [exact Hs|]. split; [exact Ht|].
      intros Hxy. apply andb_true_iff in Hxy as [Hx Hy]. auto.
  - rewrite in_app_iff. intros [H|[<-|[]]].
    + apply IHx, H.
    + exists EmptyString. split; [reflexivity|]. split; [cbn; lia|reflexivity].
Qed.

Lemma match_here_covers a r prev s k :
  match_here r prev s = Some k -> avoids a r = true ->
  exists m rest, s = m +:+ rest /\ String.length m = k
                 /\ contains a m = false.
Proof.
  unfold match_here. destruct (head _) as [c'|] eqn:E; [|done].
  intros [= <-] Ha. apply head_In in E.
  destruct (rmatch_covers a _ _ _ E) as (m & Hs & Ht & Hm).
  exists m, (ahead c'). cbn [start_at ahead taken] in *.
  split; [exact Hs|]. split; [lia|auto].
Qed.

(** [re.sub] loses no [a] when neither pattern nor white space covers it. *)
Lemma sub_from_count a r repl :
  avoids a r = true ->
  forall n s prev,
    String.length s <= n ->
    count a s <= count a (sub_from r repl prev s 0).
Proof.
  intros Ha. induction n as [|n IH]; intros s prev Hn.
  - destruct s; [cbn; lia|cbn in Hn; lia].
  - destruct s as [|c s]; [cbn [count]; lia|].
    cbn [String.length] in Hn. cbn [sub_from].
    destruct (match_here r prev (String c s)) as [[|k]|] eqn:E.
    + rewrite count_app. cbn [count]. specialize (IH s (Some c)). lia.
    + destruct (match_here_covers a _ _ _ _ E Ha) as (m & rest & Hs & Hlen & Hm).
      destruct m as [|x m]; [discriminate Hlen|].
      change (String x m +:+ rest) with (String x (m +:+ rest)) in Hs.
      injection Hs as <- ->. injection Hlen as <-.
      rewrite sub_from_skip, count_app.
      change (String c (m +:+ rest)) with (String c m +:+ rest).
      rewrite count_app. apply contains_count in Hm. rewrite Hm.
      assert (Hr : String.length rest <= n).
      { rewrite length_append in Hn. lia. }
      specialize (IH rest (last_of (Some c) m) Hr). lia.
    + cbn [count]. specialize (IH s (Some c)). lia.
Qed.

Lemma count_at_lower s : count "@" (lower s) = count "@" s.
Proof.
  induction s as [|c s IH]; [reflexivity|]. cbn [lower count].
  by rewrite eqb_at_lower_char, IH.
Qed.

Lemma count_lstrip a s : is_space a = false -> count a (lstrip s) = count a s.
Proof.
  intros Ha. induction s as [|c s IH]; [reflexivity|]. cbn [lstrip].
  destruct (is_space c) eqn:Ec; [|reflexivity]. cbn [count]. rewrite IH.
  destruct (Ascii.eqb a c) eqn:E; [|reflexivity].
  apply Ascii.eqb_eq in E as ->. congruence.
Qed.

Lemma count_rstrip a s : is_space a = false -> count a (rstrip s) = count a s.
Proof.
  intros Ha. induction s as [|c s IH]; [reflexivity|]. cbn [rstrip count].
  rewrite <- IH. destruct (rstrip s) as [|x r]; [|reflexivity].
  destruct (is_space c) eqn:Ec; [|reflexivity]. cbn [count].
  destruct (Ascii.eqb a c) eqn:E; [|reflexivity].
  apply Ascii.eqb_eq in E as ->. congruence.
Qed.

Lemma count_at_normalize value :
  count "@" value <= count "@" (normalize value).
Proof.
  unfold normalize, strip, sub. cbv zeta.
  rewrite count_rstrip, count_lstrip by reflexivity.
  etrans; [|eapply (sub_from_count "@" intro_re); [reflexivity|done]].
  etrans; [|eapply (sub_from_count "@" at_rate_re); [reflexivity|done]].
  rewrite count_rstrip, count_lstrip by reflexivity.
  by rewrite count_at_lower.
Qed.

(** X11: a value that contains [@] is never turned away and never filed as
    a name: its normalised text still holds every [@], so it is non-empty
    and [fill_form_field] stores it under ["email"]. *)
Theorem value_with_at_sign_is_email (value : string) (s : Session) :
  contains "@" value = true ->
  wf s ->
  count "@" value <= count "@" (normalize value) /\
  normalize value <> EmptyString /\
  exists s' d,
    fill_form_field value s = (Done tt, s') /\
    fields_of s = Some d /\
    fields_of s'
      = Some (<["email" := VStr (normalize value)]> (after_implicit_open s d)) /\
    trace s' = trace s ++
      [Result (VRef (next_loc s));
       SendJson (JObj {[ "status" := JStr "filled";
                         "field" := JStr "email";
                         "value" := JStr (normalize value) ]})].
Proof.
  intros Hat Hwf. pose proof (count_at_normalize value) as Hcount.
  assert (Hpos : contains "@" (normalize value) = true).
  { destruct (contains "@" (normalize value)) eqn:E; [reflexivity|].
    apply contains_count in E.
    destruct (contains "@" value) eqn:E2; [|discriminate].
    assert (count "@" value <> 0).
    { intros H0. apply contains_count in H0. congruence. }
    lia. }
  assert (Hne : normalize value <> EmptyString).
  { intros H0. rewrite H0 in Hpos. discriminate Hpos. }
  split; [exact Hcount|]. split; [exact Hne|].
  destruct (fill_form_field_records value s Hwf Hne)
    as (s' & d & Hrun & Hd & Hf & Htr & _).
  cbv zeta in *.
  assert (Hc : classify (normalize value) = "email") by by apply classify_email.
  rewrite Hc in Hf, Htr. by exists s', d.
Qed.

Lemma value_with_at_sign_is_email_witness :
  contains "@" "My Name Is a@B.org" = true /\
  wf initial_session /\
  exists s',
    fill_form_field "My Name Is a@B.org" initial_session = (Done tt, s') /\
    fields_of s' = Some {[ "email" := VStr "a@b.org" ]}.
Proof.
  split; [reflexivity|]. split; [apply wf_initial|].
  destruct (value_with_at_sign_is_email "My Name Is a@B.org" initial_session
              eq_refl wf_initial) as (_ & _ & s' & d & Hrun & Hd & Hf & _).
  exists s'. split; [exact Hrun|]. rewrite Hf. injection Hd as <-.
  by vm_compute.
Defined.

End AtSign.

(** ** More on the receive loop and the endpoint *)

Section MoreTransport.
Import Transport.

Lemma pushed_absorbs pre s :
  Forall quiet pre ->
  pushed (absorbs pre s)
  = pushed s ++ ((fun b => Frame b 16000%N 1%N) <$> omap delivered_audio pre).
Proof.
  intros Hpre. revert s.
  induction Hpre as [|t pre (_ & _ & _ & msg & Hr) _ IH]; intros s.
  - cbn. by rewrite app_nil_r.
  - cbn [absorbs omap list_omap]. unfold delivered_audio at 1.
    rewrite Hr, IH. unfold absorb. cbn [pushed].
    destruct (audio_of (m_bytes msg)) as [b|].
    + by rewrite <- app_assoc.
    + by rewrite app_nil_r.
Qed.

Lemma audio_of_nonempty p b : audio_of p = Some b -> b <> [].
Proof.
  destruct p as [[[|x l]|[|x l]|tr]|]; cbn [audio_of]; intros [= <-]; done.
Qed.

(** X12: while messages keep arriving and nothing raises, the coroutine
    stays in its loop, and the frames it has pushed are, in arrival order
    and without loss or repetition, one frame per message with non-empty
    bytes: the frame [PCMBytesSerializer.deserialize] builds from those
    bytes.  Empty binary payloads and text messages yield no frame. *)
Theorem receive_loop_pushes_in_arrival_order (pre : list tick) (s : T) :
  Forall quiet pre ->
  exists s',
    let payloads := omap delivered_audio pre in
    _receive_messages pre s = (Done Awaiting, s') /\
    pushed s' = pushed s ++ ((fun b => Frame b 16000%N 1%N) <$> payloads) /\
    PCMBytesSerializer.InputAudio <$> ((fun b => Frame b 16000%N 1%N) <$> payloads)
      = PCMBytesSerializer.deserialize <$> payloads /\
    Forall (fun b => b <> []) payloads.
Proof.
  intros Hpre. exists (absorbs pre s). cbv zeta. split; [|split; [|split]].
  - rewrite <- (app_nil_r pre) at 1.
    by rewrite (receive_messages_after_quiet pre [] s Hpre).
  - by apply pushed_absorbs.
  - rewrite <- list_fmap_compose. reflexivity.
  - clear s. induction Hpre as [|t pre (_ & _ & _ & msg & Hr) _ IH];
      [constructor|].
    cbn [omap list_omap]. unfold delivered_audio at 1. rewrite Hr.
    destruct (audio_of (m_bytes msg)) as [b|] eqn:E; [|exact IH].
    constructor; [by eapply audio_of_nonempty | exact IH].
Qed.

Lemma receive_loop_pushes_in_arrival_order_witness :
  let tick_of m := Tick true false (Done m) None in
  let script :=
    [tick_of (Message (Some (Bytes [Byte.x01])) None);
     tick_of (Message (Some (Bytes [])) None);
     tick_of (Message None (Some (Other true)));
     tick_of (Message (Some (ByteArray [Byte.x02; Byte.x03])) None)] in
  Forall quiet script /\
  exists s',
    _receive_messages script (mkT [] []) = (Done Awaiting, s') /\
    pushed s' = [Frame [Byte.x01] 16000%N 1%N;
                 Frame [Byte.x02; Byte.x03] 16000%N 1%N].
Proof.
  cbv zeta.
  match goal with |- Forall quiet ?l /\ _ =>
    assert (Hq : Forall quiet l) by (repeat constructor; cbn; eauto);
    split; [exact Hq|];
    destruct (receive_loop_pushes_in_arrival_order l (mkT [] []) Hq)
      as (s' & Hrun & Hp & _)
  end.
  exists s'. split; [exact Hrun | exact Hp].
Defined.

(** X13: once [_closed] is set or [_ws] is gone the loop test fails: the
    coroutine returns without calling [receive] again, logs nothing, and
    whatever would have arrived afterwards is not consumed. *)
Theorem receive_loop_stops_when_closed
        (pre : list tick) (t : tick) (rest : list tick) (s : T) :
  Forall quiet pre ->
  ws_set t = false \/ closed t = true ->
  _receive_messages (pre ++ t :: rest) s = (Done Returned, absorbs pre s).
Proof.
  intros Hpre Hstop. rewrite (receive_messages_after_quiet pre _ s Hpre).
  unfold _receive_messages, finally_return, try_except. cbn [while_loop].
  assert (Htest : ws_set t && negb (closed t) = false).
  { destruct Hstop as [-> | ->]; [reflexivity | apply andb_false_r]. }
  by rewrite Htest.
Qed.

Lemma receive_loop_stops_when_closed_witness :
  let audio := Tick true false
                 (Done (Message (Some (Bytes [Byte.x07])) None)) None in
  let late := Tick true true
                (Done (Message (Some (Bytes [Byte.x08])) None)) None in
  Forall quiet [audio] /\ (ws_set late = false \/ closed late = true) /\
  _receive_messages [audio; late; audio] (mkT [] [])
  = (Done Returned, mkT [Frame [Byte.x07] 16000%N 1%N] [DebugAudioReceived]).
Proof.
  cbv zeta.
  assert (Hq : Forall quiet
                 [Tick true false
                    (Done (Message (Some (Bytes [Byte.x07])) None)) None])
    by (repeat constructor; cbn; eauto).
  split; [exact Hq|]. split; [by right|].
  exact (receive_loop_stops_when_closed _
           (Tick true true (Done (Message (Some (Bytes [Byte.x08])) None)) None)
           [Tick true false (Done (Message (Some (Bytes [Byte.x07])) None)) None]
           (mkT [] []) Hq (or_intror eq_refl)).
Defined.

End MoreTransport.

Section MoreEndpoint.
Import Endpoint.

Lemma closes_app l1 l2 : closes (l1 ++ l2) = closes l1 + closes l2.
Proof.
  induction l1 as [|e l1 IH]; [reflexivity|].
  destruct e; cbn [app closes]; rewrite IH; reflexivity.
Qed.

(** X14: the endpoint accepts first.  With the credential missing it
    closes once, with code 4401.  With the credential present, if building
    the transport, the model service and the task (lines 127-234, outside
    the [try]) raises, that exception leaves the endpoint and [ws.close]
    is never called; once they are built the connection is closed exactly
    once, as the last action, with the default code 1000, however the run
    ends: a disconnect raised by the run is absorbed, any other exception
    leaves the endpoint after the close. *)
Theorem endpoint_closes_exactly_once (e : env) (c : list ws_event) :
  exists new,
    snd (websocket_endpoint e c) = c ++ new /\
    head new = Some Accept /\
    match GEMINI_API_KEY e, build_result e with
    | None, _ | Some EmptyString, _ =>
        new = [Accept;
               WsSendJson (JObj {[ "error" := JStr "GEMINI_API_KEY not set" ]});
               Close 4401%N] /\
        fst (websocket_endpoint e c) = Done tt
    | Some (String _ _), Raised ex =>
        new = [Accept; BuildPipeline] /\ closes new = 0 /\
        fst (websocket_endpoint e c) = Raised ex
    | Some (String _ _), Done _ =>
        new = [Accept; BuildPipeline; RunPipeline; Close 1000%N] /\
        closes new = 1 /\
        fst (websocket_endpoint e c)
        = match run_result e with
          | Done _ => Done tt
          | Raised WebSocketDisconnect | Raised ConnectionClosedError => Done tt
          | Raised ex => Raised ex
          end
    end.
Proof.
  unfold websocket_endpoint, act, bind, modify, ret, try_finally, try_except.
  destruct (GEMINI_API_KEY e) as [[|k0 k]|]; cbn [missing PyStr.is_empty].
  - eexists. cbn [fst snd]. rewrite <- !app_assoc.
    split; [reflexivity|]. split; [reflexivity|]. by split.
  - destruct (build_result e) as [[]|ex].
    + exists [Accept; BuildPipeline; RunPipeline; Close 1000%N].
      destruct (run_result e) as [[]|[]]; cbn [fst snd Transport.is_disconnect];
        rewrite <- !app_assoc; by repeat split.
    + exists [Accept; BuildPipeline]. cbn [fst snd]. rewrite <- !app_assoc.
      by repeat split.
  - eexists. cbn [fst snd]. rewrite <- !app_assoc.
    split; [reflexivity|]. split; [reflexivity|]. by split.
Qed.

End MoreEndpoint.

(** ** Values without a phrase, and the phrase at the very start *)

Section EdgeValues.
Import PyStr Re.








End EdgeValues.

(** ** [FormState] on its own *)

(** X17: after [fill(field, value)], [dump()] reports [value] under [field]
    and every other key as before.  This holds for [field = "form_type"]
    too: the entry of the fields dictionary then hides the form type in
    the dump, while the [form_type] attribute itself is unchanged. *)
Theorem dump_reports_filled_field (field value : string) (s : Session) :
  wf s ->
  exists s1,
    FormStateM.fill field value s = (Done tt, s1) /\
    form_type (form_state s1) = form_type (form_state s) /\
    FormStateM.dump_entries s1 !! field = Some (VStr value) /\
    (forall k, k <> field ->
       FormStateM.dump_entries s1 !! k = FormStateM.dump_entries s !! k).
Proof.
  intros Hwf. pose proof Hwf as [(d & Hd & _) _ _].
  eexists. split; [reflexivity|]. split; [reflexivity|].
  unfold FormStateM.dump_entries, FormStateM.form_type_val, set_heap.
  cbn [heap form_state fields form_type].
  rewrite (alter_present _ _ _ _ Hd), lookup_insert_eq.
  fold (fields_of s). rewrite Hd. unfold default, from_option, id. split.
  - apply lookup_union_Some_l, lookup_insert_eq.
  - intros k Hk. rewrite !lookup_union. by rewrite lookup_insert_ne.
Qed.

Lemma dump_reports_filled_field_witness :
  wf john_session /\
  exists s1,
    FormStateM.fill "form_type" "survey" john_session = (Done tt, s1) /\
    form_type (form_state s1) = Some "registration" /\
    FormStateM.dump_entries s1 !! "form_type" = Some (VStr "survey").
Proof.
  pose proof (reachable_wf _ reachable_john) as Hwf.
  split; [exact Hwf|].
  destruct (dump_reports_filled_field "form_type" "survey" john_session Hwf)
    as (s1 & Hrun & Hft & Hdump & _).
  exists s1. split; [exact Hrun|]. split; [|exact Hdump].
  rewrite Hft. by vm_compute.
Defined.

(** ** Values as spoken: white space around, any case *)

Section RawValue.
Import PyStr Re.














End RawValue.

(** ** A leading self-introduction *)

Section LeadingPhrase.
Import PyStr Re.






End LeadingPhrase.

Section SpokenValues.
Import PyStr Re.



End SpokenValues.

Section SpokenEmail.
Import PyStr Re.





End SpokenEmail.
